(** * RMII protocol decoder (pd.py): shallow embedding and verified properties

    The decoder of [pd.py] is a Python class whose methods mutate [self] and
    may raise.  It is embedded as a state-and-exception monad over a record
    [Decoder] holding the attributes of [self]; Python integers are [Z],
    the list [self.dibits] is a [list] of records read and written by index. *)

From Stdlib Require Import ZArith String Ascii Lia Bool.
From stdpp Require Import base list.

Local Open Scope Z_scope.

(** ** Python primitives used by the decoder *)

Module Py.

(** Exceptions the decoder can meet. [EOFError] is how the sample source
    ends a run when no further sample can be delivered. *)
Inductive exn : Set := IndexError | ValueError | ChannelError | EOFError.

(** Truth value of an integer: [if x:] / [not x]. *)
Definition truthy (x : Z) : bool := negb (x =? 0).

(** [l[i]] with Python's negative indices; out of range is [IndexError]. *)
Definition index {A : Type} (l : list A) (i : Z) : option A :=
  if i <? 0
  then (if Z.of_nat (length l) + i <? 0 then None
        else l !! Z.to_nat (Z.of_nat (length l) + i))
  else l !! Z.to_nat i.

(** [l[i] = x] seen as a pure update: [None] when [i] is out of range. *)
Definition setitem {A : Type} (l : list A) (i : nat) (x : A) : option (list A) :=
  match l !! i with
  | Some _ => Some (<[i := x]> l)
  | None => None
  end.

(** [a << n]: a negative shift count is a [ValueError]. *)
Definition lshift (a n : Z) : option Z :=
  if n <? 0 then None else Some (Z.shiftl a n).

(** Digits for [%d] and [%X]. *)
Definition digit_char (d : Z) : ascii :=
  match String.get (Z.to_nat d) "0123456789ABCDEF" with
  | Some c => c
  | None => "?"%char
  end.

Fixpoint digits (base : Z) (fuel : nat) (n : Z) (acc : string) : string :=
  match fuel with
  | O => acc
  | S fuel' =>
      let acc' := String (digit_char (n mod base)) acc in
      if n / base =? 0 then acc' else digits base fuel' (n / base) acc'
  end.

(** Rendering of a natural number in [base]; a number has at most as many
    digits as bits. *)
Definition render (base n : Z) : string :=
  digits base (S (Z.to_nat (Z.log2 n))) n EmptyString.

Fixpoint zeros (k : nat) (s : string) : string :=
  match k with
  | O => s
  | S k' => String "0"%char (zeros k' s)
  end.

(** Left padding with ["0"] up to [width] characters. *)
Definition zfill (width : nat) (s : string) : string :=
  zeros (width - String.length s)%nat s.

(** ['%d' % v] *)
Definition fmt_d (v : Z) : string :=
  if v <? 0 then String "-"%char (render 10 (- v)) else render 10 v.

(** ['%02X' % v]: the sign counts in the width. *)
Definition fmt_02X (v : Z) : string :=
  if v <? 0 then String "-"%char (zfill 1 (render 16 (- v)))
  else zfill 2 (render 16 v).

End Py.

(** ** Constants of pd.py *)

Definition BITS_PER_BYTE : Z := 8.
Definition CHANNEL_INDEX_CLK : Z := 0.
Definition CHANNEL_INDEX_VALID : Z := 1.
Definition CHANNEL_INDEX_RXD1 : Z := 2.
Definition CHANNEL_INDEX_RXD0 : Z := 3.

Definition ANNOTATION_CLASS_INDEX_OCTETS : Z := 0.
Definition ANNOTATION_CLASS_INDEX_DIBITS : Z := 1.

(** [len(Decoder.channels)] *)
Definition channels_len : nat := 4.

(** ** Data *)

(** The option [valid_bit_type]; the host only admits these two values. *)
Inductive valid_bit_type : Set := CRS_DV | TX_EN.

(** An element of [self.dibits]: the list [[dibit, sample_start, sample_end]],
    read through [DIBIT_ANNOTATION_LIST_INDEX_VALUE], [_SAMPLE_START] and
    [_SAMPLE_END]. *)
Record dibit_ann : Set := DibitAnn {
  ann_value : Z;
  ann_sample_start : Z;
  ann_sample_end : Z
}.

Definition with_sample_end (d : dibit_ann) (e : Z) : dibit_ann :=
  DibitAnn (ann_value d) (ann_sample_start d) e.

(** What [self.put(ss, es, self.out_ann, [cls, [text]])] hands to the host. *)
Record annotation : Set := Annotation {
  put_ss : Z;
  put_es : Z;
  put_class : Z;
  put_text : string
}.

(** A sample as [self.wait] delivers it: the pins it returns and the
    attributes [samplenum] and [matched] it sets. *)
Record Frame : Set := {
  f_samplenum : Z;
  f_matched : list bool;
  f_clk : Z;
  f_valid : Z;
  f_dibit1 : Z;
  f_dibit0 : Z
}.

(** The attributes of [self].  [has_channel], [options], [samplenum] and
    [matched] belong to the host; [out_ann] collects the annotations put on
    the registered output, oldest first; [waits] counts the calls of
    [self.wait]. *)
Record Decoder : Type := {
  has_channel : Z -> bool;
  options : valid_bit_type;
  samplerate : option Z;
  crs : Z;
  dv : Z;
  bitcount : Z;
  octet : Z;
  dibits : list dibit_ann;
  samplenum : Z;
  matched : list bool;
  waits : nat;
  out_ann : list annotation
}.

Definition set_samplerate (v : option Z) (s : Decoder) : Decoder :=
  {| has_channel := has_channel s; options := options s; samplerate := v;
     crs := crs s; dv := dv s; bitcount := bitcount s; octet := octet s;
     dibits := dibits s; samplenum := samplenum s; matched := matched s;
     waits := waits s; out_ann := out_ann s |}.

Definition set_crs (v : Z) (s : Decoder) : Decoder :=
  {| has_channel := has_channel s; options := options s; samplerate := samplerate s;
     crs := v; dv := dv s; bitcount := bitcount s; octet := octet s;
     dibits := dibits s; samplenum := samplenum s; matched := matched s;
     waits := waits s; out_ann := out_ann s |}.

Definition set_dv (v : Z) (s : Decoder) : Decoder :=
  {| has_channel := has_channel s; options := options s; samplerate := samplerate s;
     crs := crs s; dv := v; bitcount := bitcount s; octet := octet s;
     dibits := dibits s; samplenum := samplenum s; matched := matched s;
     waits := waits s; out_ann := out_ann s |}.

Definition set_bitcount (v : Z) (s : Decoder) : Decoder :=
  {| has_channel := has_channel s; options := options s; samplerate := samplerate s;
     crs := crs s; dv := dv s; bitcount := v; octet := octet s;
     dibits := dibits s; samplenum := samplenum s; matched := matched s;
     waits := waits s; out_ann := out_ann s |}.

Definition set_octet (v : Z) (s : Decoder) : Decoder :=
  {| has_channel := has_channel s; options := options s; samplerate := samplerate s;
     crs := crs s; dv := dv s; bitcount := bitcount s; octet := v;
     dibits := dibits s; samplenum := samplenum s; matched := matched s;
     waits := waits s; out_ann := out_ann s |}.

Definition set_dibits (v : list dibit_ann) (s : Decoder) : Decoder :=
  {| has_channel := has_channel s; options := options s; samplerate := samplerate s;
     crs := crs s; dv := dv s; bitcount := bitcount s; octet := octet s;
     dibits := v; samplenum := samplenum s; matched := matched s;
     waits := waits s; out_ann := out_ann s |}.

Definition set_out_ann (v : list annotation) (s : Decoder) : Decoder :=
  {| has_channel := has_channel s; options := options s; samplerate := samplerate s;
     crs := crs s; dv := dv s; bitcount := bitcount s; octet := octet s;
     dibits := dibits s; samplenum := samplenum s; matched := matched s;
     waits := waits s; out_ann := v |}.

(** The host's side of one [self.wait] call that delivers frame [f]. *)
Definition deliver (f : Frame) (s : Decoder) : Decoder :=
  {| has_channel := has_channel s; options := options s; samplerate := samplerate s;
     crs := crs s; dv := dv s; bitcount := bitcount s; octet := octet s;
     dibits := dibits s; samplenum := f_samplenum f; matched := f_matched f;
     waits := S (waits s); out_ann := out_ann s |}.

(** The host's side of a [self.wait] call on an exhausted source. *)
Definition count_wait (s : Decoder) : Decoder :=
  {| has_channel := has_channel s; options := options s; samplerate := samplerate s;
     crs := crs s; dv := dv s; bitcount := bitcount s; octet := octet s;
     dibits := dibits s; samplenum := samplenum s; matched := matched s;
     waits := S (waits s); out_ann := out_ann s |}.

(** ** The monad of methods: state [self], result or exception *)

Inductive outcome (A : Type) : Type :=
| Ok (a : A) (self : Decoder)
| Raise (e : Py.exn) (self : Decoder).
Arguments Ok {A} a self.
Arguments Raise {A} e self.

Definition M (A : Type) : Type := Decoder -> outcome A.

Definition ret {A : Type} (a : A) : M A := fun s => Ok a s.

Definition bind {A B : Type} (m : M A) (k : A -> M B) : M B :=
  fun s => match m s with
           | Ok a s' => k a s'
           | Raise e s' => Raise e s'
           end.

Definition raise {A : Type} (e : Py.exn) : M A := fun s => Raise e s.
Definition gets {A : Type} (f : Decoder -> A) : M A := fun s => Ok (f s) s.
Definition modify (f : Decoder -> Decoder) : M unit := fun s => Ok tt (f s).

(** A partial primitive lifted to the monad. *)
Definition orRaise {A : Type} (e : Py.exn) (o : option A) : M A :=
  match o with
  | Some a => ret a
  | None => raise e
  end.

Declare Scope method_scope.
Delimit Scope method_scope with method.
Notation "x <- m ;; k" := (bind m (fun x => k))
  (at level 20, m at level 99, k at level 200, only parsing) : method_scope.
Notation "m ;; k" := (bind m (fun _ => k))
  (at level 100, k at level 200, right associativity, only parsing) : method_scope.
Local Open Scope method_scope.

(** State an outcome stops in. *)
Definition final {A : Type} (o : outcome A) : Decoder :=
  match o with
  | Ok _ s => s
  | Raise _ s => s
  end.

(** ** The methods of [Decoder] *)

(** pd.py 78-81 *)
Definition reset_decoder_state : M unit :=
  modify (set_bitcount 0) ;;
  modify (set_octet 0) ;;
  modify (set_dibits []).

(** pd.py 83-90 *)
Definition reset : M unit :=
  modify (set_samplerate None) ;;
  modify (set_crs 0) ;;
  modify (set_dv 0) ;;
  reset_decoder_state.

(** [self.put(ss, es, self.out_ann, [cls, [text]])] *)
Definition put (ss es cls : Z) (text : string) : M unit :=
  modify (fun s => set_out_ann (out_ann s ++ [Annotation ss es cls text]) s).

(** The [for] loop of [putdata], pd.py 101-104. *)
Fixpoint put_dibits (l : list dibit_ann) : M unit :=
  match l with
  | [] => ret tt
  | dibit :: rest =>
      let sample_start := ann_sample_start dibit in
      let sample_end := ann_sample_end dibit in
      put sample_start sample_end ANNOTATION_CLASS_INDEX_DIBITS
          (Py.fmt_d (ann_value dibit)) ;;
      put_dibits rest
  end.

(** pd.py 99-109 *)
Definition putdata : M unit :=
  l <- gets dibits ;;
  put_dibits l ;;
  l <- gets dibits ;;
  last <- orRaise Py.IndexError (Py.index l (-1)) ;;
  let sample_start := ann_sample_start last in
  first <- orRaise Py.IndexError (Py.index l 0) ;;
  let sample_end := ann_sample_end first in
  o <- gets octet ;;
  put sample_start sample_end ANNOTATION_CLASS_INDEX_OCTETS (Py.fmt_02X o).

(** The de-multiplexing of CRS_DV, pd.py 113-127; the result is
    [dv_updated]. *)
Definition demultiplex (valid : Z) : M bool :=
  opt <- gets options ;;
  match opt with
  | TX_EN =>
      modify (set_crs valid) ;;
      modify (set_dv valid) ;;
      ret true
  | CRS_DV =>
      bc <- gets bitcount ;;
      if Z.land bc 2 =? 0 then
        modify (set_crs valid) ;;
        ret false
      else
        modify (set_dv valid) ;;
        ret true
  end.

(** Clocking a di-bit in, pd.py 139-157. *)
Definition clock_in (dibit1 dibit0 : Z) : M unit :=
  let dibit := Z.lor (Z.shiftl dibit1 1) dibit0 in
  bc <- gets bitcount ;;
  shifted <- orRaise Py.ValueError (Py.lshift dibit bc) ;;
  o <- gets octet ;;
  modify (set_octet (Z.lor o shifted)) ;;
  sn <- gets samplenum ;;
  sample_end <-
    (if 0 <? bc then
       l <- gets dibits ;;
       d0 <- orRaise Py.IndexError (Py.index l 0) ;;
       ret (sn + (sn - ann_sample_start d0))
     else ret sn) ;;
  l <- gets dibits ;;
  modify (set_dibits (DibitAnn dibit sn sample_end :: l)) ;;
  (if 0 <? bc then
     l <- gets dibits ;;
     d1 <- orRaise Py.IndexError (Py.index l 1) ;;
     l' <- orRaise Py.IndexError (Py.setitem l 1 (with_sample_end d1 sn)) ;;
     modify (set_dibits l')
   else ret tt) ;;
  modify (set_bitcount (bc + 2)).

(** Emitting a completed byte, pd.py 159-163. *)
Definition emit_completed : M unit :=
  bc <- gets bitcount ;;
  if bc =? BITS_PER_BYTE then
    putdata ;;
    reset_decoder_state
  else ret tt.

(** The assembler: pd.py 139-163, what [handle_dibit] does with a sample it
    did not discard. *)
Definition assemble (dibit1 dibit0 : Z) : M unit :=
  clock_in dibit1 dibit0 ;;
  emit_completed.

(** pd.py 111-163 *)
Definition handle_dibit (clk valid dibit1 dibit0 : Z) : M unit :=
  dv_updated <- demultiplex valid ;;
  dv_now <- gets dv ;;
  if dv_updated && (dv_now =? 0) then
    reset_decoder_state
  else
    crs_now <- gets crs ;;
    if negb (Py.truthy crs_now) && negb (Py.truthy dv_now) then
      reset_decoder_state
    else
      assemble dibit1 dibit0.

(** pd.py 165-182 *)
Definition find_clk_edge (clk valid dibit1 dibit0 : Z) (first : bool) : M unit :=
  ignore <-
    (if first then ret true
     else
       m <- gets matched ;;
       changed <- orRaise Py.IndexError (Py.index m CHANNEL_INDEX_CLK) ;;
       ret (negb changed)) ;;
  if ignore then ret tt
  else
    opt <- gets options ;;
    match opt with
    | TX_EN =>
        if Py.truthy clk then ret tt
        else handle_dibit clk valid dibit1 dibit0
    | CRS_DV =>
        if negb (Py.truthy clk) then ret tt
        else handle_dibit clk valid dibit1 dibit0
    end.

(** The channel check of [decode], pd.py 186-188, over [range(n)]. *)
Fixpoint check_channels (channel : Z) (n : nat) : M unit :=
  match n with
  | O => ret tt
  | S n' =>
      present <- gets (fun s => has_channel s channel) ;;
      if negb present then raise Py.ChannelError
      else check_channels (channel + 1) n'
  end.

(** [self.wait(...)] on a source that still holds [source]: the next frame
    is delivered, or the run ends. *)
Definition wait (source : list Frame) : M (Frame * list Frame) :=
  match source with
  | [] => modify count_wait ;; raise Py.EOFError
  | f :: rest => modify (deliver f) ;; ret (f, rest)
  end.

(** The [while True] loop of [decode], pd.py 202-204: one iteration per
    frame; it only ends by an exception. *)
Fixpoint decode_loop (source : list Frame) : M unit :=
  match source with
  | [] => modify count_wait ;; raise Py.EOFError
  | f :: rest =>
      modify (deliver f) ;;
      find_clk_edge (f_clk f) (f_valid f) (f_dibit1 f) (f_dibit0 f) false ;;
      decode_loop rest
  end.

(** pd.py 184-204 *)
Definition decode (source : list Frame) : M unit :=
  check_channels 0 channels_len ;;
  w <- wait source ;;
  let '(f, rest) := w in
  find_clk_edge (f_clk f) (f_valid f) (f_dibit1 f) (f_dibit0 f) true ;;
  decode_loop rest.

(** The decoder as [__init__] leaves it, pd.py 75-76, for a given host. *)
Definition blank (hc : Z -> bool) (opt : valid_bit_type) : Decoder :=
  {| has_channel := hc; options := opt; samplerate := None;
     crs := 0; dv := 0; bitcount := 0; octet := 0; dibits := [];
     samplenum := 0; matched := []; waits := 0; out_ann := [] |}.

Definition init (hc : Z -> bool) (opt : valid_bit_type) : Decoder :=
  final (reset (blank hc opt)).

(** ** Predicates used by the statements *)

(** The di-bit [handle_dibit] forms from the two data pins, pd.py 140. *)
Definition dibit_of (dibit1 dibit0 : Z) : Z := Z.lor (Z.shiftl dibit1 1) dibit0.

(** A pin level as the host delivers it. *)
Definition is_level (x : Z) : Prop := x = 0 \/ x = 1.

(** The state between two assembler steps: [bitcount] counts two bits per
    stored di-bit and a byte is never complete. *)
Definition between_steps (s : Decoder) : Prop :=
  bitcount s = 2 * Z.of_nat (length (dibits s)) /\
  (bitcount s = 0 \/ bitcount s = 2 \/ bitcount s = 4 \/ bitcount s = 6).

(** The accumulator only holds the bits clocked in so far, and every stored
    di-bit is a 2-bit value. *)
Definition in_range (s : Decoder) : Prop :=
  0 <= octet s < 2 ^ bitcount s /\
  Forall (fun d => 0 <= ann_value d <= 3) (dibits s).

(** [self.dibits] after [clock_in] on a state between two steps
    (pd.py 143-154): the new record in front, the record before it closed at
    the current sample. *)
Definition next_dibits (dibit1 dibit0 : Z) (s : Decoder) : list dibit_ann :=
  let sn := samplenum s in
  match dibits s with
  | [] => [DibitAnn (dibit_of dibit1 dibit0) sn sn]
  | prev :: older =>
      DibitAnn (dibit_of dibit1 dibit0) sn (sn + (sn - ann_sample_start prev))
        :: with_sample_end prev sn :: older
  end.

(** The state [clock_in] returns from a state between two steps. *)
Definition clocked (dibit1 dibit0 : Z) (s : Decoder) : Decoder :=
  set_bitcount (bitcount s + 2)
    (set_dibits (next_dibits dibit1 dibit0 s)
       (set_octet (Z.lor (octet s) (Z.shiftl (dibit_of dibit1 dibit0) (bitcount s))) s)).

(** The annotations [putdata] puts for the [dibits] and [octet] of [s]
    (pd.py 101-109), when [dibits] is not empty. *)
Definition byte_events (s : Decoder) : list annotation :=
  match dibits s with
  | [] => []
  | newest :: older =>
      map (fun d => Annotation (ann_sample_start d) (ann_sample_end d)
                      ANNOTATION_CLASS_INDEX_DIBITS (Py.fmt_d (ann_value d)))
          (newest :: older) ++
      [Annotation (ann_sample_start (List.last older newest))
                  (ann_sample_end newest)
                  ANNOTATION_CLASS_INDEX_OCTETS (Py.fmt_02X (octet s))]
  end.

(** The state after [putdata] and [reset_decoder_state] (pd.py 162-163). *)
Definition completed (s : Decoder) : Decoder :=
  set_dibits [] (set_octet 0 (set_bitcount 0
    (set_out_ann (out_ann s ++ byte_events s) s))).

(** Whether [handle_dibit] discards the sample after de-multiplexing
    (pd.py 129-137), for the flags [dv_updated], [crs] and [dv] it sees. *)
Definition discards (dv_updated : bool) (s : Decoder) : bool :=
  (dv_updated && (dv s =? 0))
  || (negb (Py.truthy (crs s)) && negb (Py.truthy (dv s))).

(** The clock level [find_clk_edge] samples on, for each bus flavour. *)
Definition edge_wanted (opt : valid_bit_type) (clk : Z) : bool :=
  match opt with
  | TX_EN => negb (Py.truthy clk)
  | CRS_DV => Py.truthy clk
  end.

(** [k] samples in a row, each delivered by the host and clocked in by
    [handle_dibit] (none discarded). *)
Inductive clocked_run : nat -> Decoder -> Decoder -> Prop :=
| clocked_none s : clocked_run 0 s s
| clocked_more k s s1 f upd s2 s3 :
    clocked_run k s s1 ->
    demultiplex (f_valid f) (deliver f s1) = Ok upd s2 ->
    discards upd s2 = false ->
    handle_dibit (f_clk f) (f_valid f) (f_dibit1 f) (f_dibit0 f) (deliver f s1)
      = Ok tt s3 ->
    clocked_run (S k) s s3.

(** The di-bit annotation [putdata] puts for one element of [self.dibits],
    with the label the specification words: the decimal digit of a value
    0..3. *)
Definition decimal_digit (v : Z) : string :=
  match v with
  | 0 => "0" | 1 => "1" | 2 => "2" | 3 => "3" | 4 => "4"
  | 5 => "5" | 6 => "6" | 7 => "7" | 8 => "8" | 9 => "9"
  | _ => ""
  end%string.

(** One uppercase hexadecimal digit, as the specification words it. *)
Definition hex_digit (v : Z) : ascii :=
  match v with
  | 0 => "0" | 1 => "1" | 2 => "2" | 3 => "3" | 4 => "4" | 5 => "5"
  | 6 => "6" | 7 => "7" | 8 => "8" | 9 => "9" | 10 => "A" | 11 => "B"
  | 12 => "C" | 13 => "D" | 14 => "E" | 15 => "F"
  | _ => "?"
  end%char.

(** The two-digit uppercase hexadecimal rendering of a byte, as the
    specification words it: high nibble, then low nibble. *)
Definition two_hex_digits (o : Z) : string :=
  String (hex_digit (o / 16)) (String (hex_digit (o mod 16)) EmptyString).

Definition symbol_event (d : dibit_ann) : annotation :=
  Annotation (ann_sample_start d) (ann_sample_end d)
             ANNOTATION_CLASS_INDEX_DIBITS (decimal_digit (ann_value d)).

(** A TX_EN sample the edge gate accepts: the clock changed and reads low. *)
Definition tx_frame (n valid dibit1 dibit0 : Z) : Frame :=
  {| f_samplenum := n; f_matched := [true]; f_clk := 0; f_valid := valid;
     f_dibit1 := dibit1; f_dibit0 := dibit0 |}.

(** Annotation [a] covers at least one sample and ends no later than [b]
    starts. *)
Definition ends_before (a b : annotation) : Prop :=
  put_ss a < put_es a /\ put_es a <= put_ss b.

(** The pins of a frame are levels. *)
Definition frame_levels (f : Frame) : Prop :=
  is_level (f_clk f) /\ is_level (f_valid f) /\
  is_level (f_dibit1 f) /\ is_level (f_dibit0 f).

(** A method leaves an attribute, read by [f], as it found it, whether it
    returns or raises. *)
Definition preserves {A B : Type} (f : Decoder -> B) (m : M A) : Prop :=
  forall s, f (final (m s)) = f s.

(** A CRS_DV sample the edge gate accepts: the clock changed and reads
    high. *)
Definition crs_dv_frame (n valid dibit1 dibit0 : Z) : Frame :=
  {| f_samplenum := n; f_matched := [true]; f_clk := 1; f_valid := valid;
     f_dibit1 := dibit1; f_dibit0 := dibit0 |}.

(** Concrete runs the statements are evaluated on: a TX_EN decoder that has
    clocked in two and three di-bits of a byte, and a CRS_DV decoder that has
    just completed a byte. *)
Definition all_present : Z -> bool := fun _ => true.

Definition tx_start : Decoder :=
  Eval vm_compute in init all_present TX_EN.

Definition tx_one_dibit : Decoder :=
  Eval vm_compute in
    final (handle_dibit 0 1 1 1 (deliver (tx_frame 10 1 1 1) tx_start)).

Definition tx_two_dibits : Decoder :=
  Eval vm_compute in
    final (decode [tx_frame 0 1 0 0; tx_frame 10 1 1 1; tx_frame 20 1 0 1]
             (init all_present TX_EN)).

Definition tx_three_dibits : Decoder :=
  Eval vm_compute in
    final (decode [tx_frame 0 1 0 0; tx_frame 10 1 1 1; tx_frame 20 1 0 1;
                   tx_frame 30 1 1 0]
             (init all_present TX_EN)).

Definition crs_dv_byte_done : Decoder :=
  Eval vm_compute in
    final (decode [crs_dv_frame 0 1 0 0; crs_dv_frame 10 1 1 1;
                   crs_dv_frame 20 1 0 1; crs_dv_frame 30 1 1 0;
                   crs_dv_frame 40 1 0 0]
             (init all_present CRS_DV)).

(** ** The rest of the decoder: metadata, the loop by iterations, packing *)

(** pd.py 95-97.  [SRD_CONF_SAMPLERATE] is a constant of the host module
    [sigrokdecode]; it is taken as a parameter. *)
Definition metadata (SRD_CONF_SAMPLERATE key value : Z) : M unit :=
  if key =? SRD_CONF_SAMPLERATE then modify (set_samplerate (Some value))
  else ret tt.

(** One iteration of the [while True] loop of [decode], pd.py 203-204, for
    the frame [self.wait] delivers. *)
Definition loop_iteration (f : Frame) : M unit :=
  modify (deliver f) ;;
  find_clk_edge (f_clk f) (f_valid f) (f_dibit1 f) (f_dibit0 f) false.

(** The iterations of the loop over the frames delivered so far; the loop is
    then suspended in the next [self.wait]. *)
Fixpoint loop_iterations (source : list Frame) : M unit :=
  match source with
  | [] => ret tt
  | f :: rest => loop_iteration f ;; loop_iterations rest
  end.

(** The exception an outcome stops with, if any. *)
Definition raised {A : Type} (o : outcome A) : option Py.exn :=
  match o with
  | Ok _ _ => None
  | Raise e _ => Some e
  end.

(** An outcome with its state transformed. *)
Definition map_outcome {A : Type} (g : Decoder -> Decoder) (o : outcome A) : outcome A :=
  match o with
  | Ok a s => Ok a (g s)
  | Raise e s => Raise e (g s)
  end.

(** A method runs the same whatever [samplerate] holds. *)
Definition rate_blind {A : Type} (m : M A) : Prop :=
  forall r s, m (set_samplerate r s) = map_outcome (set_samplerate r) (m s).

(** A method only appends to the annotations put so far. *)
Definition appends {A : Type} (m : M A) : Prop :=
  forall s, exists later, out_ann (final (m s)) = out_ann s ++ later.

(** The octet [clock_in] accumulates for the records of [self.dibits]
    (newest first), pd.py 140-141 and 157: each value shifted by two bits per
    older record. *)
Fixpoint pack_dibits (l : list dibit_ann) : Z :=
  match l with
  | [] => 0
  | d :: older =>
      Z.lor (pack_dibits older)
            (Z.shiftl (ann_value d) (2 * Z.of_nat (length older)))
  end.

(** In a list of records, newest first, every record ends where the next
    newer one starts. *)
Fixpoint chained (l : list dibit_ann) : Prop :=
  match l with
  | newer :: (older :: _) as rest =>
      ann_sample_end older = ann_sample_start newer /\ chained rest
  | _ => True
  end.

(** Between two steps, moreover: the accumulator is the packing of the
    stored di-bits, and their intervals are chained. *)
Definition tidy (s : Decoder) : Prop :=
  between_steps s /\
  octet s = pack_dibits (dibits s) /\
  chained (dibits s).

(** The annotations [putdata] puts for four records [quad] (newest first)
    whose packing is the octet. *)
Definition group_events (quad : list dibit_ann) : list annotation :=
  match quad with
  | [] => []
  | newest :: older =>
      map (fun d => Annotation (ann_sample_start d) (ann_sample_end d)
                      ANNOTATION_CLASS_INDEX_DIBITS (Py.fmt_d (ann_value d)))
          (newest :: older) ++
      [Annotation (ann_sample_start (List.last older newest))
                  (ann_sample_end newest)
                  ANNOTATION_CLASS_INDEX_OCTETS
                  (Py.fmt_02X (pack_dibits (newest :: older)))]
  end.

(** A list of annotations made of whole bytes: the groups of four chained
    records, each satisfying [R]. *)
Definition grouped (R : list dibit_ann -> Prop) (l : list annotation) : Prop :=
  exists quads : list (list dibit_ann),
    l = concat (map group_events quads) /\
    Forall (fun q => length q = 4%nat /\ chained q /\ R q) quads.

(** A stored di-bit value fits two bits. *)
Definition two_bit (d : dibit_ann) : Prop := 0 <= ann_value d <= 3.

(** A stored record covers at least one sample. *)
Definition lasting (d : dibit_ann) : Prop :=
  ann_sample_start d < ann_sample_end d.

(** The frames of [source] follow sample number [n] under [A]: each frame
    is related to the sample number of the one before. *)
Fixpoint follows (A : Z -> Frame -> Prop) (n : Z) (source : list Frame) : Prop :=
  match source with
  | [] => True
  | f :: rest => A n f /\ follows A (f_samplenum f) rest
  end.

(** Sample numbers increase strictly along the source. *)
Definition increasing (source : list Frame) : Prop :=
  match source with
  | [] => True
  | f :: rest => follows (fun n g => n < f_samplenum g) (f_samplenum f) rest
  end.

(** The records stored so far start no later than the current sample, and
    all but the newest cover at least one sample. *)
Definition timed (s : Decoder) : Prop :=
  match dibits s with
  | [] => True
  | newest :: older =>
      ann_sample_start newest <= samplenum s /\ Forall lasting older
  end.

(** Every channel of [range(len(Decoder.channels))] is connected. *)
Definition all_channels (s : Decoder) : Prop :=
  forall channel, 0 <= channel < Z.of_nat channels_len ->
                  has_channel s channel = true.

(** [self.matched] of the frame has an entry for the clock condition. *)
Definition has_clk_match (f : Frame) : Prop := f_matched f <> [].

(** A frame TX_EN decoding takes: the clock condition matched, the clock
    reads low and the valid line is not 0. *)
Definition tx_en_taken (f : Frame) : Prop :=
  Py.index (f_matched f) CHANNEL_INDEX_CLK = Some true /\
  f_clk f = 0 /\ f_valid f <> 0.

(** With CRS_DV, from the third di-bit of a byte on, [dv] holds the
    non-zero level read at the second di-bit. *)
Definition dv_latched (s : Decoder) : Prop :=
  options s = CRS_DV -> 4 <= bitcount s -> dv s <> 0.

(** The octet of four di-bits as arithmetic: the value clocked in first
    ([d0]) is the least significant base-4 digit. *)
Definition byte_of (d3 d2 d1 d0 : dibit_ann) : Z :=
  ann_value d0 + 4 * ann_value d1 + 16 * ann_value d2 + 64 * ann_value d3.

(** A group of annotations that reads back: four di-bit annotations of
    chained 2-bit records (newest first) labelled with their decimal digits,
    then the octet annotation over all four, labelled with the two uppercase
    hexadecimal digits of [byte_of], whose base-4 digits are the four
    values. *)
Definition round_trip_group (g : list annotation) : Prop :=
  exists d3 d2 d1 d0 : dibit_ann,
    (two_bit d3 /\ two_bit d2 /\ two_bit d1 /\ two_bit d0) /\
    chained [d3; d2; d1; d0] /\
    0 <= byte_of d3 d2 d1 d0 < 256 /\
    (byte_of d3 d2 d1 d0 mod 4 = ann_value d0 /\
     (byte_of d3 d2 d1 d0 / 4) mod 4 = ann_value d1 /\
     (byte_of d3 d2 d1 d0 / 16) mod 4 = ann_value d2 /\
     byte_of d3 d2 d1 d0 / 64 = ann_value d3) /\
    g = [symbol_event d3; symbol_event d2; symbol_event d1; symbol_event d0;
         Annotation (ann_sample_start d0) (ann_sample_end d3)
                    ANNOTATION_CLASS_INDEX_OCTETS
                    (two_hex_digits (byte_of d3 d2 d1 d0))].

(** Further concrete inputs: a TX_EN source of one ignored frame and four
    taken ones, and a CRS_DV decoder holding two di-bits of a byte. *)
Definition tx_source : list Frame :=
  [tx_frame 0 1 0 0; tx_frame 10 1 1 1; tx_frame 20 1 0 1; tx_frame 30 1 1 0;
   tx_frame 40 1 0 0].

Definition crs_dv_two_dibits : Decoder :=
  Eval vm_compute in
    final (decode [crs_dv_frame 0 1 0 0; crs_dv_frame 10 1 1 1;
                   crs_dv_frame 20 1 0 1]
             (init all_present CRS_DV)).

(** * Properties *)

(** ** Equations of the methods *)

Ltac mrun :=
  unfold reset, reset_decoder_state, put;
  unfold bind, ret, gets, modify, raise, orRaise;
  cbv beta iota;
  cbn [final
       has_channel options samplerate crs dv bitcount octet dibits
       samplenum matched waits out_ann
       set_samplerate set_crs set_dv set_bitcount set_octet set_dibits
       set_out_ann deliver count_wait].

Lemma reset_decoder_state_eq (s : Decoder) :
  reset_decoder_state s = Ok tt (set_dibits [] (set_octet 0 (set_bitcount 0 s))).
Proof. reflexivity. Qed.

Lemma demultiplex_eq (valid : Z) (s : Decoder) :
  demultiplex valid s =
  match options s with
  | TX_EN => Ok true (set_dv valid (set_crs valid s))
  | CRS_DV =>
      if Z.land (bitcount s) 2 =? 0 then Ok false (set_crs valid s)
      else Ok true (set_dv valid s)
  end.
Proof.
  unfold demultiplex. mrun.
  destruct (options s); mrun; [ | reflexivity ].
  destruct (Z.land (bitcount s) 2 =? 0); reflexivity.
Qed.

Lemma handle_dibit_eq (clk valid dibit1 dibit0 : Z) (s : Decoder) :
  handle_dibit clk valid dibit1 dibit0 s =
  match demultiplex valid s with
  | Ok upd s1 =>
      if discards upd s1 then reset_decoder_state s1
      else assemble dibit1 dibit0 s1
  | Raise e s1 => Raise e s1
  end.
Proof.
  unfold handle_dibit, discards. unfold bind at 1.
  destruct (demultiplex valid s) as [upd s1 | e s1]; [ | reflexivity ].
  mrun.
  destruct (upd && (dv s1 =? 0)); mrun; [ reflexivity | ].
  destruct (negb (Py.truthy (crs s1)) && negb (Py.truthy (dv s1))); reflexivity.
Qed.

(** [clock_in] on a state whose [bitcount] is not negative: the first di-bit
    of a byte, a later one, and the [IndexError] of a later one that finds
    no earlier record. *)
Lemma clock_in_eq (dibit1 dibit0 : Z) (s : Decoder) :
  0 <= bitcount s ->
  let sn := samplenum s in
  let s1 := set_octet (Z.lor (octet s) (Z.shiftl (dibit_of dibit1 dibit0) (bitcount s))) s in
  clock_in dibit1 dibit0 s =
  if 0 <? bitcount s then
    match dibits s with
    | r :: rest =>
        Ok tt (set_bitcount (bitcount s + 2)
                 (set_dibits
                    (DibitAnn (dibit_of dibit1 dibit0) sn
                              (sn + (sn - ann_sample_start r))
                       :: with_sample_end r sn :: rest) s1))
    | [] => Raise Py.IndexError s1
    end
  else
    Ok tt (set_bitcount (bitcount s + 2)
             (set_dibits (DibitAnn (dibit_of dibit1 dibit0) sn sn :: dibits s) s1)).
Proof.
  intros Hbc. unfold clock_in, Py.lshift, dibit_of. mrun.
  destruct (bitcount s <? 0) eqn:Hneg; [ lia | ]. mrun.
  destruct (0 <? bitcount s); mrun; [ | reflexivity ].
  destruct (dibits s) as [ | r rest ] eqn:Hd.
  - reflexivity.
  - change (Py.index (r :: rest) 0) with (Some r). mrun.
    rewrite Hd. reflexivity.
Qed.

Lemma emit_completed_eq (s : Decoder) :
  emit_completed s =
  if bitcount s =? BITS_PER_BYTE then
    match putdata s with
    | Ok _ s' => reset_decoder_state s'
    | Raise e s' => Raise e s'
    end
  else Ok tt s.
Proof.
  unfold emit_completed. mrun.
  destruct (bitcount s =? BITS_PER_BYTE); reflexivity.
Qed.

Lemma put_dibits_eq (l : list dibit_ann) (s : Decoder) :
  put_dibits l s =
  Ok tt (set_out_ann
           (out_ann s ++
            map (fun d => Annotation (ann_sample_start d) (ann_sample_end d)
                            ANNOTATION_CLASS_INDEX_DIBITS (Py.fmt_d (ann_value d))) l)
           s).
Proof.
  revert s. induction l as [ | d l IH ]; intros s.
  - cbn [put_dibits map]. rewrite app_nil_r. destruct s; reflexivity.
  - cbn [put_dibits map]. mrun. rewrite IH. mrun.
    rewrite <- app_assoc. reflexivity.
Qed.

(** [l[-1]] of a non-empty list is its last element. *)
Lemma index_last {A : Type} (x : A) (l : list A) :
  Py.index (x :: l) (-1) = Some (List.last l x).
Proof.
  unfold Py.index.
  replace (-1 <? 0) with true by reflexivity.
  destruct (Z.of_nat (length (x :: l)) + -1 <? 0) eqn:E.
  - apply Z.ltb_lt in E. cbn [length] in E. lia.
  - replace (Z.to_nat (Z.of_nat (length (x :: l)) + -1))
      with (length l) by (cbn [length]; lia).
    clear E.
    assert (H : forall d, (x :: l) !! length l = Some (List.last (x :: l) d)).
    { revert x. induction l as [ | y l IH ]; intros x d.
      - reflexivity.
      - change ((x :: y :: l) !! length (y :: l)) with ((y :: l) !! length l).
        rewrite (IH y d). reflexivity. }
    rewrite (H x). destruct l; reflexivity.
Qed.

(** [putdata] on a non-empty [self.dibits]. *)
Lemma putdata_eq (s : Decoder) (newest : dibit_ann) (rest : list dibit_ann) :
  dibits s = newest :: rest ->
  putdata s =
  Ok tt (set_out_ann
           (out_ann s ++
            map (fun d => Annotation (ann_sample_start d) (ann_sample_end d)
                            ANNOTATION_CLASS_INDEX_DIBITS (Py.fmt_d (ann_value d)))
                (newest :: rest) ++
            [Annotation (ann_sample_start (List.last rest newest))
                        (ann_sample_end newest)
                        ANNOTATION_CLASS_INDEX_OCTETS (Py.fmt_02X (octet s))])
           s).
Proof.
  intros Hd. unfold putdata. mrun. rewrite put_dibits_eq. mrun.
  rewrite Hd.
  rewrite index_last. mrun.
  change (Py.index (newest :: rest) 0) with (Some newest). mrun.
  rewrite <- app_assoc. reflexivity.
Qed.

(** ** Frame rules: which attributes a method can touch *)

Section Frame.
Context {B : Type} (f : Decoder -> B).

Lemma preserves_ret {A : Type} (a : A) : preserves f (ret a).
Proof. intros s. reflexivity. Qed.

Lemma preserves_gets {A : Type} (g : Decoder -> A) : preserves f (gets g).
Proof. intros s. reflexivity. Qed.

Lemma preserves_raise {A : Type} (e : Py.exn) : preserves f (@raise A e).
Proof. intros s. reflexivity. Qed.

Lemma preserves_orRaise {A : Type} (e : Py.exn) (o : option A) :
  preserves f (orRaise e o).
Proof. intros s. destruct o; reflexivity. Qed.

Lemma preserves_modify (g : Decoder -> Decoder) :
  (forall s, f (g s) = f s) -> preserves f (modify g).
Proof. intros Hg s. apply Hg. Qed.

Lemma preserves_bind {A C : Type} (m : M A) (k : A -> M C) :
  preserves f m -> (forall a, preserves f (k a)) -> preserves f (bind m k).
Proof.
  intros Hm Hk s. unfold bind.
  specialize (Hm s). destruct (m s) as [a s1 | e s1]; cbn [final] in *.
  - rewrite Hk. exact Hm.
  - exact Hm.
Qed.
End Frame.

Ltac frame_step :=
  first
    [ apply preserves_ret
    | apply preserves_gets
    | apply preserves_raise
    | apply preserves_orRaise
    | apply preserves_modify; intros ?; reflexivity
    | apply preserves_bind; [ | intros ? ]
    | match goal with
      | |- preserves _ (if ?b then _ else _) => destruct b
      | |- preserves _ (match ?x with _ => _ end) => destruct x
      end ].

Ltac frame := cbv zeta; repeat frame_step.

Lemma reset_decoder_state_flags :
  preserves crs reset_decoder_state /\ preserves dv reset_decoder_state.
Proof. split; unfold reset_decoder_state; frame. Qed.

Lemma put_dibits_flags (l : list dibit_ann) :
  preserves crs (put_dibits l) /\ preserves dv (put_dibits l).
Proof.
  induction l as [ | d l [IHc IHd] ]; split; cbn [put_dibits]; unfold put; frame;
    assumption.
Qed.

Lemma putdata_flags : preserves crs putdata /\ preserves dv putdata.
Proof.
  split; unfold putdata, put; frame;
    solve [ apply (put_dibits_flags _) ].
Qed.

Lemma clock_in_flags (dibit1 dibit0 : Z) :
  preserves crs (clock_in dibit1 dibit0) /\ preserves dv (clock_in dibit1 dibit0).
Proof. split; unfold clock_in; frame. Qed.

Lemma assemble_flags (dibit1 dibit0 : Z) :
  preserves crs (assemble dibit1 dibit0) /\ preserves dv (assemble dibit1 dibit0).
Proof.
  split; unfold assemble, emit_completed; frame;
    solve [ apply (clock_in_flags _ _) | apply putdata_flags
          | apply (put_dibits_flags _) | apply reset_decoder_state_flags ].
Qed.

(** [check_channels] changes nothing, whatever it finds. *)
Lemma check_channels_final (n : nat) (channel : Z) (s : Decoder) :
  final (check_channels channel n s) = s.
Proof.
  revert channel. induction n as [ | n IH ]; intros channel.
  - reflexivity.
  - cbn [check_channels]. mrun.
    destruct (has_channel s channel); cbn [negb]; [ apply IH | reflexivity ].
Qed.

(** A missing channel of [range(n)] makes [check_channels] raise. *)
Lemma check_channels_missing (n : nat) (first channel : Z) (s : Decoder) :
  first <= channel < first + Z.of_nat n ->
  has_channel s channel = false ->
  check_channels first n s = Raise Py.ChannelError s.
Proof.
  revert first. induction n as [ | n IH ]; intros first Hr Hc.
  - lia.
  - cbn [check_channels]. mrun.
    destruct (has_channel s first) eqn:Hf; cbn [negb]; [ | reflexivity ].
    apply IH; [ | exact Hc ].
    assert (first <> channel) by congruence. lia.
Qed.

(** With every channel of [range(n)] present, [check_channels] returns. *)
Lemma check_channels_present (n : nat) (first : Z) (s : Decoder) :
  (forall channel, first <= channel < first + Z.of_nat n ->
                   has_channel s channel = true) ->
  check_channels first n s = Ok tt s.
Proof.
  revert first. induction n as [ | n IH ]; intros first Hall.
  - reflexivity.
  - cbn [check_channels]. mrun.
    rewrite (Hall first) by lia. cbn [negb].
    apply IH. intros channel Hr. apply Hall. lia.
Qed.

(** ** The signal de-multiplexer *)

(** C3: on every sample [handle_dibit] receives, the de-multiplexer runs
    first and sets the flags by bus flavour.  With TX_EN both [crs] and [dv]
    become the level of the valid line and [dv] counts as updated.  With
    CRS_DV, when [bitcount & 2 == 0] only [crs] is assigned and [dv] is not
    updated; otherwise only [dv] is assigned and counts as updated.  Nothing
    else of the state changes, and the rest of [handle_dibit] works on the
    state so obtained. *)
Theorem demultiplex_sets_flags (clk valid dibit1 dibit0 : Z) (s : Decoder) :
  exists (dv_updated : bool) (s1 : Decoder),
    demultiplex valid s = Ok dv_updated s1 /\
    handle_dibit clk valid dibit1 dibit0 s =
      (if discards dv_updated s1 then reset_decoder_state s1
       else assemble dibit1 dibit0 s1) /\
    match options s with
    | TX_EN =>
        s1 = set_dv valid (set_crs valid s) /\
        crs s1 = valid /\ dv s1 = valid /\ dv_updated = true
    | CRS_DV =>
        if Z.land (bitcount s) 2 =? 0
        then s1 = set_crs valid s /\
             crs s1 = valid /\ dv s1 = dv s /\ dv_updated = false
        else s1 = set_dv valid s /\
             dv s1 = valid /\ crs s1 = crs s /\ dv_updated = true
    end.
Proof.
  pose proof (handle_dibit_eq clk valid dibit1 dibit0 s) as Hh.
  rewrite demultiplex_eq in *.
  destruct (options s).
  - destruct (Z.land (bitcount s) 2 =? 0);
      eexists; eexists; (split; [ reflexivity | ]); (split; [ exact Hh | ]);
      repeat split.
  - eexists; eexists; (split; [ reflexivity | ]); (split; [ exact Hh | ]);
      repeat split.
Qed.

(** C4: when the data-valid flag was updated by this sample and is now 0, or
    when carrier-sense and data-valid are both 0, [handle_dibit] resets
    [bitcount], [octet] and [dibits] and returns: no di-bit is clocked in and
    no annotation is put, whatever partial byte the state held. *)
Theorem discard_resets_state
    (clk valid dibit1 dibit0 : Z) (s s1 : Decoder) (dv_updated : bool) :
  demultiplex valid s = Ok dv_updated s1 ->
  (dv_updated = true /\ dv s1 = 0) \/ (crs s1 = 0 /\ dv s1 = 0) ->
  exists s',
    handle_dibit clk valid dibit1 dibit0 s = Ok tt s' /\
    s' = set_dibits [] (set_octet 0 (set_bitcount 0 s1)) /\
    bitcount s' = 0 /\ octet s' = 0 /\ dibits s' = [] /\
    out_ann s' = out_ann s /\ crs s' = crs s1 /\ dv s' = dv s1.
Proof.
  intros Hd Hcase.
  assert (Hdis : discards dv_updated s1 = true).
  { unfold discards, Py.truthy.
    destruct Hcase as [[-> ->] | [-> ->]]; [ reflexivity | ].
    apply orb_true_r. }
  assert (Hout : out_ann s1 = out_ann s).
  { rewrite demultiplex_eq in Hd.
    destruct (options s); [ destruct (Z.land (bitcount s) 2 =? 0) | ];
      inversion Hd; reflexivity. }
  rewrite handle_dibit_eq, Hd, Hdis, reset_decoder_state_eq.
  eexists. split; [ reflexivity | ].
  repeat split. exact Hout.
Qed.

(** ** The edge gate *)

(** C5: the first sample of a run changes nothing, whatever its clock
    level.  A later sample reaches [handle_dibit] exactly when the clock is
    flagged as changed and reads low with TX_EN, high with CRS_DV; any other
    sample leaves the state as it was.  In [decode] the first frame is
    therefore only delivered and the loop starts at the second. *)
Theorem edge_gate (clk valid dibit1 dibit0 : Z) (s : Decoder) :
  find_clk_edge clk valid dibit1 dibit0 true s = Ok tt s /\
  (forall changed : bool,
     Py.index (matched s) CHANNEL_INDEX_CLK = Some changed ->
     find_clk_edge clk valid dibit1 dibit0 false s =
       if changed && edge_wanted (options s) clk
       then handle_dibit clk valid dibit1 dibit0 s
       else Ok tt s) /\
  (forall (f : Frame) (rest : list Frame),
     check_channels 0 channels_len s = Ok tt s ->
     decode (f :: rest) s = decode_loop rest (deliver f s)).
Proof.
  split; [ reflexivity | split ].
  - intros changed Hm. unfold find_clk_edge. mrun. rewrite Hm. mrun.
    unfold edge_wanted.
    destruct changed; cbn [negb andb]; [ | reflexivity ].
    destruct (options s); destruct (Py.truthy clk); reflexivity.
  - intros f rest Hc. unfold decode, wait. mrun. rewrite Hc.
    reflexivity.
Qed.

(** ** Missing channels *)

(** C9: when one of the four channels is not connected, [decode] raises
    [ChannelError] in the state it started in: [self.wait] was not called
    ([waits] is unchanged) and no annotation was put. *)
Theorem missing_channel_fails (source : list Frame) (s : Decoder) (channel : Z) :
  0 <= channel < Z.of_nat channels_len ->
  has_channel s channel = false ->
  decode source s = Raise Py.ChannelError s /\
  waits (final (decode source s)) = waits s /\
  out_ann (final (decode source s)) = out_ann s.
Proof.
  intros Hr Hc.
  assert (H : decode source s = Raise Py.ChannelError s).
  { unfold decode. unfold bind at 1.
    rewrite (check_channels_missing channels_len 0 channel s) by (auto; lia).
    reflexivity. }
  rewrite H. repeat split.
Qed.

(** ** What the resets keep *)

(** C10: [reset_decoder_state] clears [bitcount], [octet] and [dibits] and
    nothing else; [crs] and [dv] are only cleared by [reset], at
    construction.  Whatever path [handle_dibit] takes (discard, clocking in,
    completed byte, exception) it leaves [crs] and [dv] as the de-multiplexer
    set them.  So with CRS_DV at a carrier-sense phase
    ([bitcount & 2 == 0]) the idle test reads the [dv] the state already
    held: the sample is discarded exactly when the valid line and that
    earlier [dv] are both 0. *)
Theorem flags_survive_resets :
  (forall s : Decoder,
     reset_decoder_state s = Ok tt (set_dibits [] (set_octet 0 (set_bitcount 0 s))) /\
     crs (final (reset_decoder_state s)) = crs s /\
     dv (final (reset_decoder_state s)) = dv s) /\
  (forall s : Decoder,
     crs (final (reset s)) = 0 /\ dv (final (reset s)) = 0) /\
  (forall (clk valid dibit1 dibit0 : Z) (s : Decoder),
     crs (final (handle_dibit clk valid dibit1 dibit0 s))
       = crs (final (demultiplex valid s)) /\
     dv (final (handle_dibit clk valid dibit1 dibit0 s))
       = dv (final (demultiplex valid s))) /\
  (forall (clk valid dibit1 dibit0 : Z) (s : Decoder),
     options s = CRS_DV ->
     Z.land (bitcount s) 2 = 0 ->
     dv (final (demultiplex valid s)) = dv s /\
     handle_dibit clk valid dibit1 dibit0 s =
       if negb (Py.truthy valid) && negb (Py.truthy (dv s))
       then reset_decoder_state (set_crs valid s)
       else assemble dibit1 dibit0 (set_crs valid s)).
Proof.
  split; [ | split; [ | split ] ].
  - intros s. repeat split.
  - intros s. split; reflexivity.
  - intros clk valid dibit1 dibit0 s. rewrite handle_dibit_eq.
    destruct (demultiplex valid s) as [upd s1 | e s1]; cbn [final];
      [ | split; reflexivity ].
    destruct (discards upd s1).
    + split; reflexivity.
    + split; [ apply (assemble_flags dibit1 dibit0)
             | apply (assemble_flags dibit1 dibit0) ].
  - intros clk valid dibit1 dibit0 s Hopt Hph.
    rewrite handle_dibit_eq, demultiplex_eq, Hopt, Hph.
    change (0 =? 0) with true. cbv beta iota. cbn [final].
    split; [ reflexivity | ].
    unfold discards. cbn [andb orb crs dv set_crs]. reflexivity.
Qed.

(** ** The assembler between two steps *)

Lemma between_steps_cases (s : Decoder) :
  between_steps s ->
  (bitcount s = 0 /\ dibits s = []) \/
  (0 < bitcount s /\ exists prev older, dibits s = prev :: older).
Proof.
  intros [Hlen Hbc]. destruct (dibits s) as [ | prev older ] eqn:Hd.
  - left. cbn [length] in Hlen. split; [ lia | reflexivity ].
  - right. cbn [length] in Hlen. split; [ lia | eauto ].
Qed.

Lemma clock_in_between (dibit1 dibit0 : Z) (s : Decoder) :
  between_steps s ->
  clock_in dibit1 dibit0 s = Ok tt (clocked dibit1 dibit0 s).
Proof.
  intros Hb. pose proof Hb as [Hlen Hbc].
  rewrite clock_in_eq by lia. unfold clocked, next_dibits.
  destruct (between_steps_cases s Hb) as [[H0 Hd] | [Hpos (prev & older & Hd)]].
  - rewrite H0, Hd. reflexivity.
  - replace (0 <? bitcount s) with true by (symmetry; apply Z.ltb_lt; exact Hpos).
    rewrite Hd. reflexivity.
Qed.

Lemma clocked_length (dibit1 dibit0 : Z) (s : Decoder) :
  between_steps s ->
  bitcount (clocked dibit1 dibit0 s)
    = 2 * Z.of_nat (length (dibits (clocked dibit1 dibit0 s))).
Proof.
  intros [Hlen Hbc]. unfold clocked, next_dibits.
  cbn [bitcount dibits set_bitcount set_dibits set_octet].
  destruct (dibits s); cbn [length] in *; lia.
Qed.

(** The assembler on a state between two steps: it returns, in a state
    between two steps, with [bitcount] advanced by 2 modulo 8. *)
Lemma assemble_between (dibit1 dibit0 : Z) (s : Decoder) :
  between_steps s ->
  exists s',
    assemble dibit1 dibit0 s = Ok tt s' /\
    between_steps s' /\
    bitcount s' = (bitcount s + 2) mod 8.
Proof.
  intros Hb. pose proof Hb as [Hlen Hbc].
  unfold assemble. unfold bind at 1.
  rewrite (clock_in_between _ _ _ Hb), emit_completed_eq.
  pose proof (clocked_length dibit1 dibit0 s Hb) as Hlen'.
  assert (Hbc' : bitcount (clocked dibit1 dibit0 s) = bitcount s + 2) by reflexivity.
  destruct (bitcount (clocked dibit1 dibit0 s) =? BITS_PER_BYTE) eqn:E.
  - apply Z.eqb_eq in E. unfold BITS_PER_BYTE in E.
    destruct (dibits (clocked dibit1 dibit0 s)) as [ | newest rest ] eqn:Hd.
    + cbn [length] in Hlen'. lia.
    + rewrite (putdata_eq _ newest rest Hd), reset_decoder_state_eq.
      eexists. split; [ reflexivity | ].
      split; [ split; [ reflexivity | left; reflexivity ] | ].
      cbn [bitcount set_dibits set_octet set_bitcount].
      replace (bitcount s + 2) with 8 by lia. reflexivity.
  - apply Z.eqb_neq in E. unfold BITS_PER_BYTE in E.
    eexists. split; [ reflexivity | ].
    split; [ split; [ exact Hlen' | lia ] | ].
    rewrite Hbc' in E. rewrite Hbc'.
    destruct Hbc as [H | [H | [H | H]]]; rewrite H in *; try reflexivity; lia.
Qed.

Lemma discard_between (s : Decoder) :
  between_steps (set_dibits [] (set_octet 0 (set_bitcount 0 s))).
Proof. split; [ reflexivity | left; reflexivity ]. Qed.

Lemma demultiplex_between (valid : Z) (s : Decoder) :
  between_steps s ->
  exists upd s1,
    demultiplex valid s = Ok upd s1 /\ between_steps s1 /\
    bitcount s1 = bitcount s.
Proof.
  intros Hb. rewrite demultiplex_eq.
  destruct (options s); [ destruct (Z.land (bitcount s) 2 =? 0) | ];
    eexists; eexists; (split; [ reflexivity | ]); split;
    solve [ exact Hb | reflexivity ].
Qed.

(** [handle_dibit] never raises between two steps and ends between two
    steps. *)
Lemma handle_dibit_between (clk valid dibit1 dibit0 : Z) (s : Decoder) :
  between_steps s ->
  exists s',
    handle_dibit clk valid dibit1 dibit0 s = Ok tt s' /\ between_steps s'.
Proof.
  intros Hb. rewrite handle_dibit_eq.
  destruct (demultiplex_between valid s Hb) as (upd & s1 & -> & Hb1 & _).
  destruct (discards upd s1).
  - rewrite reset_decoder_state_eq. eexists. split; [ reflexivity | ].
    apply discard_between.
  - destruct (assemble_between dibit1 dibit0 s1 Hb1) as (s' & -> & Hb' & _).
    eauto.
Qed.

Lemma find_clk_edge_between (clk valid dibit1 dibit0 : Z) (first : bool) (s : Decoder) :
  between_steps s ->
  between_steps (final (find_clk_edge clk valid dibit1 dibit0 first s)).
Proof.
  intros Hb. unfold find_clk_edge. mrun.
  assert (Hh : between_steps (final (handle_dibit clk valid dibit1 dibit0 s))).
  { destruct (handle_dibit_between clk valid dibit1 dibit0 s Hb) as (s' & -> & Hb').
    exact Hb'. }
  destruct first; mrun.
  - exact Hb.
  - destruct (Py.index (matched s) CHANNEL_INDEX_CLK) as [ changed | ]; mrun;
      [ | exact Hb ].
    destruct changed; cbn [negb]; mrun; [ | exact Hb ].
    destruct (options s); destruct (Py.truthy clk); cbn [negb];
      solve [ exact Hb | exact Hh ].
Qed.

Lemma deliver_between (f : Frame) (s : Decoder) :
  between_steps s -> between_steps (deliver f s).
Proof. intros Hb. exact Hb. Qed.

Lemma decode_loop_between (source : list Frame) (s : Decoder) :
  between_steps s -> between_steps (final (decode_loop source s)).
Proof.
  revert s. induction source as [ | f rest IH ]; intros s Hb.
  - exact Hb.
  - cbn [decode_loop]. mrun.
    pose proof (find_clk_edge_between (f_clk f) (f_valid f) (f_dibit1 f)
                  (f_dibit0 f) false (deliver f s) (deliver_between f s Hb)) as Hf.
    destruct (find_clk_edge (f_clk f) (f_valid f) (f_dibit1 f) (f_dibit0 f)
                false (deliver f s)) as [ [] s1 | e s1 ]; cbn [final] in *.
    + apply IH. exact Hf.
    + exact Hf.
Qed.

Lemma decode_between (source : list Frame) (s : Decoder) :
  between_steps s -> between_steps (final (decode source s)).
Proof.
  intros Hb. unfold decode. unfold bind at 1.
  pose proof (check_channels_final channels_len 0 s) as Hc.
  destruct (check_channels 0 channels_len s) as [ [] s0 | e s0 ];
    cbn [final] in Hc; subst s0; [ | exact Hb ].
  destruct source as [ | f rest ]; unfold wait; mrun; [ exact Hb | ].
  apply decode_loop_between. exact Hb.
Qed.

(** A sample that is clocked in advances [bitcount] by 2 modulo 8. *)
Lemma clocked_sample_bitcount
    (clk valid dibit1 dibit0 : Z) (s s1 s' : Decoder) (upd : bool) :
  between_steps s ->
  demultiplex valid s = Ok upd s1 ->
  discards upd s1 = false ->
  handle_dibit clk valid dibit1 dibit0 s = Ok tt s' ->
  between_steps s' /\ bitcount s' = (bitcount s + 2) mod 8.
Proof.
  intros Hb Hd Hdis Hh.
  destruct (demultiplex_between valid s Hb) as (upd' & s1' & Hd' & Hb1 & Hbc1).
  rewrite Hd in Hd'. inversion Hd'; subst upd' s1'.
  rewrite handle_dibit_eq, Hd, Hdis in Hh.
  destruct (assemble_between dibit1 dibit0 s1 Hb1) as (s'' & Ha & Hb' & Hbc').
  rewrite Ha in Hh. inversion Hh; subst s''.
  split; [ exact Hb' | ]. rewrite Hbc', Hbc1. reflexivity.
Qed.

Lemma clocked_run_bitcount (k : nat) (s s' : Decoder) :
  clocked_run k s s' ->
  between_steps s ->
  between_steps s' /\ bitcount s' = (bitcount s + 2 * Z.of_nat k) mod 8.
Proof.
  induction 1 as [ s | k s s1 f upd s2 s3 Hrun IH Hd Hdis Hh ]; intros Hb.
  - split; [ exact Hb | ].
    destruct Hb as [_ [H | [H | [H | H]]]]; rewrite H; reflexivity.
  - destruct (IH Hb) as [Hb1 Hbc1].
    destruct (clocked_sample_bitcount _ _ _ _ (deliver f s1) s2 s3 upd
                (deliver_between f s1 Hb1) Hd Hdis Hh) as [Hb3 Hbc3].
    split; [ exact Hb3 | ].
    rewrite Hbc3. change (bitcount (deliver f s1)) with (bitcount s1).
    rewrite Hbc1, Z.add_mod_idemp_l by lia.
    f_equal. lia.
Qed.

(** ** The invariant of the assembler *)

(** C2: the decoder starts between two steps, [handle_dibit] never raises
    there and ends there, and so does every run of [decode] on any source:
    [bitcount] is 0, 2, 4 or 6 and equals twice the number of stored
    di-bits; 8 is never stored.  After [k] samples clocked in from the start
    of a byte [bitcount] is [2 * (k mod 4)]: it is back at 0 exactly every
    fourth one. *)
Theorem bitcount_between_steps :
  (forall hc opt, between_steps (init hc opt)) /\
  (forall (clk valid dibit1 dibit0 : Z) (s : Decoder),
     between_steps s ->
     exists s', handle_dibit clk valid dibit1 dibit0 s = Ok tt s' /\
                between_steps s') /\
  (forall hc opt (source : list Frame),
     between_steps (final (decode source (init hc opt)))) /\
  (forall (k : nat) (s s' : Decoder),
     between_steps s -> bitcount s = 0 -> clocked_run k s s' ->
     between_steps s' /\
     bitcount s' = 2 * (Z.of_nat k mod 4) /\
     (bitcount s' = 0 <-> (Z.of_nat k mod 4) = 0)).
Proof.
  split; [ | split; [ | split ] ].
  - intros hc opt. split; [ reflexivity | left; reflexivity ].
  - intros clk valid dibit1 dibit0 s Hb. apply handle_dibit_between. exact Hb.
  - intros hc opt source. apply decode_between.
    split; [ reflexivity | left; reflexivity ].
  - intros k s s' Hb H0 Hrun.
    destruct (clocked_run_bitcount k s s' Hrun Hb) as [Hb' Hbc].
    rewrite H0, Z.add_0_l in Hbc.
    change 8 with (2 * 4) in Hbc. rewrite Z.mul_mod_distr_l in Hbc by lia.
    split; [ exact Hb' | ]. split; [ exact Hbc | ]. lia.
Qed.

(** ** Sample intervals of the di-bits *)

(** C6: between two steps, the first di-bit of a byte is stored with
    [sample_end] equal to the current sample number.  A later di-bit finds
    the record added last in front of [dibits]; it is stored with
    [sample_end] = current + (current - [sample_start] of that record), and
    that record's [sample_end] is overwritten with the current sample number.
    The older records stay as they are, so a record's end is rewritten by
    the one step that follows its insertion and by no later one. *)
Theorem provisional_sample_end (dibit1 dibit0 : Z) (s : Decoder) :
  between_steps s ->
  let sn := samplenum s in
  exists s',
    clock_in dibit1 dibit0 s = Ok tt s' /\
    bitcount s' = bitcount s + 2 /\
    (bitcount s = 0 ->
       dibits s = [] /\
       dibits s' = [DibitAnn (dibit_of dibit1 dibit0) sn sn]) /\
    (bitcount s <> 0 ->
       exists prev older,
         dibits s = prev :: older /\
         Py.index (dibits s) 0 = Some prev /\
         dibits s' =
           DibitAnn (dibit_of dibit1 dibit0) sn (sn + (sn - ann_sample_start prev))
             :: DibitAnn (ann_value prev) (ann_sample_start prev) sn
             :: older).
Proof.
  intros Hb sn. exists (clocked dibit1 dibit0 s).
  split; [ apply clock_in_between; exact Hb | ].
  split; [ reflexivity | ].
  unfold clocked, next_dibits. cbn [dibits set_bitcount set_dibits set_octet].
  destruct (between_steps_cases s Hb) as [[H0 Hd] | [Hpos (prev & older & Hd)]].
  - split.
    + intros _. rewrite Hd. split; reflexivity.
    + intros Hne. contradiction.
  - split.
    + intros H0. lia.
    + intros _. exists prev, older. rewrite Hd. repeat split.
Qed.

(** The last element of a non-empty list does not depend on the default. *)
Lemma last_default {A : Type} (l : list A) (a b : A) :
  l <> [] -> List.last l a = List.last l b.
Proof.
  induction l as [ | x l IH ]; intros Hne; [ contradiction | ].
  destruct l as [ | y l ]; [ reflexivity | ].
  change (List.last (y :: l) a = List.last (y :: l) b).
  apply IH. discriminate.
Qed.

(** In chained records whose older ones each cover at least one sample, the
    oldest record starts before the newest. *)
Lemma chained_starts_decrease (older : list dibit_ann) (newest : dibit_ann) :
  chained (newest :: older) ->
  Forall lasting older ->
  older <> [] ->
  ann_sample_start (List.last older newest) < ann_sample_start newest.
Proof.
  revert newest. induction older as [ | o rest IH ]; intros newest Hch Hl Hne;
    [ contradiction | ].
  destruct Hch as [Hend Hch'].
  inversion Hl as [ | ? ? Ho Hrest ]; subst.
  unfold lasting in Ho.
  destruct rest as [ | r rest' ].
  - cbn [List.last]. lia.
  - assert (Hr : r :: rest' <> []) by discriminate.
    specialize (IH o Hch' Hrest Hr).
    change (List.last (o :: r :: rest') newest)
      with (List.last (r :: rest') newest).
    rewrite (last_default (r :: rest') newest o Hr). lia.
Qed.

(** C7 as amended: between two steps, a di-bit that is not the first of its
    byte is stored with [sample_end] = current + (current - [sample_start]
    of the record added last, [dibits[0]]), the di-bit just before it.  That
    record is the first di-bit of the byte for the second di-bit
    ([bitcount] = 2); when the stored records are chained and the older ones
    each cover at least one sample, as they do when sample numbers increase
    strictly, it is so only then: for the third and fourth di-bit the first
    di-bit starts earlier and the end stored differs from
    current + (current - [sample_start] of the first di-bit). *)
Theorem extrapolation_uses_previous_dibit (dibit1 dibit0 : Z) (s : Decoder) :
  between_steps s ->
  bitcount s <> 0 ->
  exists prev s' new,
    Py.index (dibits s) 0 = Some prev /\
    clock_in dibit1 dibit0 s = Ok tt s' /\
    Py.index (dibits s') 0 = Some new /\
    ann_sample_start new = samplenum s /\
    ann_sample_end new = samplenum s + (samplenum s - ann_sample_start prev) /\
    (bitcount s = 2 -> Py.index (dibits s) (-1) = Some prev) /\
    (chained (dibits s) ->
     Forall lasting (List.tl (dibits s)) ->
     exists first,
       Py.index (dibits s) (-1) = Some first /\
       (ann_sample_start first = ann_sample_start prev <-> bitcount s = 2) /\
       (bitcount s <> 2 ->
        ann_sample_start first < ann_sample_start prev /\
        ann_sample_end new
          <> samplenum s + (samplenum s - ann_sample_start first))).
Proof.
  intros Hb Hne.
  destruct (between_steps_cases s Hb) as [[H0 Hd] | [Hpos (prev & older & Hd)]];
    [ contradiction | ].
  exists prev, (clocked dibit1 dibit0 s).
  eexists. split; [ rewrite Hd; reflexivity | ].
  split; [ apply clock_in_between; exact Hb | ].
  unfold clocked, next_dibits. cbn [dibits set_bitcount set_dibits set_octet].
  rewrite Hd. split; [ reflexivity | ].
  split; [ reflexivity | ]. split; [ reflexivity | ].
  destruct Hb as [Hlen _]. rewrite Hd in Hlen. cbn [length] in Hlen.
  split.
  - intros H2. rewrite H2 in Hlen.
    destruct older; [ reflexivity | cbn [length] in Hlen; lia ].
  - cbn [List.tl]. intros Hch Hl.
    exists (List.last older prev). split; [ apply index_last | ].
    cbn [ann_sample_end].
    destruct older as [ | o rest ].
    + cbn [List.last length] in *. split; [ split; [ lia | reflexivity ] | ].
      intros Hn2. lia.
    + assert (Hlt : ann_sample_start (List.last (o :: rest) prev)
                    < ann_sample_start prev)
        by (apply chained_starts_decrease; [ assumption | assumption | discriminate ]).
      cbn [length] in Hlen.
      split; [ split; intros H; lia | ].
      intros _. split; [ exact Hlt | lia ].
Qed.

(** ** The TX_EN scenario *)

(** C1: with TX_EN, at the start of a byte, four accepted samples at
    [n1 < n2 < n3 < n4] with the valid line at 1 and the di-bits 3, 1, 2, 0
    assemble the octet 0x27.  [decode]'s loop puts exactly five annotations:
    the di-bits "0", "2", "1", "3" (newest first) and then one octet "27"
    from [n1] to the extrapolated end of the last di-bit.  In time order the
    di-bit annotations read "3", "1", "2", "0", each covers at least one
    sample and each ends where the next one starts.  The state is reset
    afterwards. *)
Theorem tx_en_scenario (s : Decoder) (n1 n2 n3 n4 : Z) :
  options s = TX_EN ->
  bitcount s = 0 -> octet s = 0 -> dibits s = [] ->
  n1 < n2 -> n2 < n3 -> n3 < n4 ->
  let d3 := Annotation n1 n2 ANNOTATION_CLASS_INDEX_DIBITS "3" in
  let d1 := Annotation n2 n3 ANNOTATION_CLASS_INDEX_DIBITS "1" in
  let d2 := Annotation n3 n4 ANNOTATION_CLASS_INDEX_DIBITS "2" in
  let d0 := Annotation n4 (n4 + (n4 - n3)) ANNOTATION_CLASS_INDEX_DIBITS "0" in
  let byte := Annotation n1 (n4 + (n4 - n3)) ANNOTATION_CLASS_INDEX_OCTETS "27" in
  exists s3 s4 s',
    decode_loop [tx_frame n1 1 1 1; tx_frame n2 1 0 1; tx_frame n3 1 1 0] s
      = Raise Py.EOFError (count_wait s3) /\
    out_ann s3 = out_ann s /\
    clock_in 0 0 (set_dv 1 (set_crs 1 (deliver (tx_frame n4 1 0 0) s3)))
      = Ok tt s4 /\
    octet s4 = 39 /\ bitcount s4 = BITS_PER_BYTE /\
    Py.fmt_02X (octet s4) = "27"%string /\
    decode_loop [tx_frame n1 1 1 1; tx_frame n2 1 0 1; tx_frame n3 1 1 0;
                 tx_frame n4 1 0 0] s
      = Raise Py.EOFError s' /\
    out_ann s' = out_ann s ++ [d0; d2; d1; d3; byte] /\
    List.filter (fun a => put_class a =? ANNOTATION_CLASS_INDEX_OCTETS)
                [d0; d2; d1; d3; byte] = [byte] /\
    bitcount s' = 0 /\ octet s' = 0 /\ dibits s' = [] /\
    ends_before d3 d1 /\ ends_before d1 d2 /\ ends_before d2 d0 /\
    put_ss d0 < put_es d0 /\
    put_es d3 = put_ss d1 /\ put_es d1 = put_ss d2 /\ put_es d2 = put_ss d0.
Proof.
  intros Hopt Hbc Hoct Hdib H12 H23 H34 d3 d1 d2 d0 byte.
  destruct s as [hc opt rate c d bc o l sn m w out].
  cbn [options bitcount octet dibits] in Hopt, Hbc, Hoct, Hdib. subst opt bc o l.
  exists {| has_channel := hc; options := TX_EN; samplerate := rate;
            crs := 1; dv := 1; bitcount := 6; octet := 39;
            dibits := [DibitAnn 2 n3 (n3 + (n3 - n2)); DibitAnn 1 n2 n3;
                       DibitAnn 3 n1 n2];
            samplenum := n3; matched := [true]; waits := S (S (S w));
            out_ann := out |}.
  exists {| has_channel := hc; options := TX_EN; samplerate := rate;
            crs := 1; dv := 1; bitcount := 8; octet := 39;
            dibits := [DibitAnn 0 n4 (n4 + (n4 - n3)); DibitAnn 2 n3 n4;
                       DibitAnn 1 n2 n3; DibitAnn 3 n1 n2];
            samplenum := n4; matched := [true]; waits := S (S (S (S w)));
            out_ann := out |}.
  exists {| has_channel := hc; options := TX_EN; samplerate := rate;
            crs := 1; dv := 1; bitcount := 0; octet := 0; dibits := [];
            samplenum := n4; matched := [true]; waits := S (S (S (S (S w))));
            out_ann := ((((out ++ [d0]) ++ [d2]) ++ [d1]) ++ [d3]) ++ [byte] |}.
  split; [ vm_compute; reflexivity | ].
  split; [ vm_compute; reflexivity | ].
  split; [ vm_compute; reflexivity | ].
  split; [ vm_compute; reflexivity | ].
  split; [ vm_compute; reflexivity | ].
  split; [ vm_compute; reflexivity | ].
  split; [ vm_compute; reflexivity | ].
  split; [ cbn [out_ann]; repeat rewrite <- app_assoc; reflexivity | ].
  split; [ reflexivity | ].
  split; [ vm_compute; reflexivity | ].
  split; [ vm_compute; reflexivity | ].
  split; [ vm_compute; reflexivity | ].
  unfold ends_before, d3, d1, d2, d0. cbn [put_ss put_es].
  repeat split; lia.
Qed.

(** ** Completed bytes *)

(** The assembler in closed form, between two steps. *)
Lemma assemble_between_eq (dibit1 dibit0 : Z) (s : Decoder) :
  between_steps s ->
  assemble dibit1 dibit0 s =
  Ok tt (if bitcount s =? 6 then completed (clocked dibit1 dibit0 s)
         else clocked dibit1 dibit0 s).
Proof.
  intros Hb. pose proof Hb as [Hlen Hbc].
  unfold assemble. unfold bind at 1.
  rewrite (clock_in_between _ _ _ Hb), emit_completed_eq.
  change (bitcount (clocked dibit1 dibit0 s)) with (bitcount s + 2).
  unfold BITS_PER_BYTE.
  destruct (bitcount s =? 6) eqn:E.
  - apply Z.eqb_eq in E. rewrite E. change (6 + 2 =? 8) with true. cbv iota.
    pose proof (clocked_length dibit1 dibit0 s Hb) as Hlen'.
    change (bitcount (clocked dibit1 dibit0 s)) with (bitcount s + 2) in Hlen'.
    unfold completed, byte_events.
    destruct (dibits (clocked dibit1 dibit0 s)) as [ | newest rest ] eqn:Hd.
    + cbn [length] in Hlen'. lia.
    + rewrite (putdata_eq _ newest rest Hd), reset_decoder_state_eq.
      reflexivity.
  - apply Z.eqb_neq in E.
    replace (bitcount s + 2 =? 8) with false; [ reflexivity | ].
    symmetry. apply Z.eqb_neq. lia.
Qed.

Lemma dibit_of_range (dibit1 dibit0 : Z) :
  is_level dibit1 -> is_level dibit0 -> 0 <= dibit_of dibit1 dibit0 <= 3.
Proof.
  intros [-> | ->] [-> | ->]; vm_compute; split; discriminate.
Qed.

Lemma lor_lt_pow2 (a b n : Z) :
  0 <= a < 2 ^ n -> 0 <= b < 2 ^ n -> 0 <= Z.lor a b < 2 ^ n.
Proof.
  intros Ha Hb.
  assert (Hnn : 0 <= Z.lor a b) by (apply Z.lor_nonneg; lia).
  split; [ exact Hnn | ].
  destruct (Z.eq_dec (Z.lor a b) 0) as [E | E]; [ lia | ].
  assert (Hn : 0 < n).
  { destruct (Z_lt_le_dec 0 n) as [ | Hle ]; [ assumption | exfalso ].
    assert (2 ^ n <= 1).
    { destruct (Z.eq_dec n 0) as [-> | ]; [ reflexivity | ].
      rewrite Z.pow_neg_r by lia. lia. }
    assert (a = 0) by lia. assert (b = 0) by lia. subst. apply E. reflexivity. }
  apply Z.log2_lt_pow2; [ lia | ].
  rewrite Z.log2_lor by lia.
  apply Z.max_lub_lt.
  - destruct (Z.eq_dec a 0) as [-> | ]; [ exact Hn | ].
    apply Z.log2_lt_pow2; lia.
  - destruct (Z.eq_dec b 0) as [-> | ]; [ exact Hn | ].
    apply Z.log2_lt_pow2; lia.
Qed.

(** Clocking a di-bit of level pins in keeps the accumulator and the stored
    values in range. *)
Lemma clocked_in_range (dibit1 dibit0 : Z) (s : Decoder) :
  between_steps s -> in_range s ->
  is_level dibit1 -> is_level dibit0 ->
  in_range (clocked dibit1 dibit0 s).
Proof.
  intros [Hlen Hbc] [Hoct Hval] H1 H0.
  pose proof (dibit_of_range dibit1 dibit0 H1 H0) as Hd.
  unfold in_range, clocked, next_dibits.
  cbn [octet bitcount dibits set_bitcount set_dibits set_octet].
  split.
  - apply lor_lt_pow2.
    + rewrite Z.pow_add_r by lia.
      assert (0 < 2 ^ bitcount s) by (apply Z.pow_pos_nonneg; lia). nia.
    + rewrite Z.shiftl_mul_pow2, Z.pow_add_r by lia.
      assert (0 < 2 ^ bitcount s) by (apply Z.pow_pos_nonneg; lia).
      change (2 ^ 2) with 4. nia.
  - destruct (dibits s) as [ | prev older ].
    + repeat constructor; cbn [ann_value]; lia.
    + inversion Hval; subst.
      repeat constructor; cbn [ann_value with_sample_end]; solve [ lia | assumption ].
Qed.

Lemma completed_in_range (s : Decoder) : in_range (completed s).
Proof. split; [ vm_compute; split; [ discriminate | reflexivity ] | constructor ]. Qed.

(** [handle_dibit] on level pins keeps the state in range. *)
Lemma handle_dibit_in_range (clk valid dibit1 dibit0 : Z) (s : Decoder) :
  between_steps s -> in_range s ->
  is_level dibit1 -> is_level dibit0 ->
  in_range (final (handle_dibit clk valid dibit1 dibit0 s)).
Proof.
  intros Hb Hr H1 H0. rewrite handle_dibit_eq.
  destruct (demultiplex_between valid s Hb) as (upd & s1 & Hd & Hb1 & _).
  assert (Hr1 : in_range s1).
  { rewrite demultiplex_eq in Hd.
    destruct (options s); [ destruct (Z.land (bitcount s) 2 =? 0) | ];
      inversion Hd; exact Hr. }
  rewrite Hd. destruct (discards upd s1).
  - rewrite reset_decoder_state_eq. cbn [final].
    split; [ vm_compute; split; [ discriminate | reflexivity ] | constructor ].
  - rewrite (assemble_between_eq _ _ _ Hb1). cbn [final].
    destruct (bitcount s1 =? 6).
    + apply completed_in_range.
    + apply clocked_in_range; assumption.
Qed.

(** ['%d'] of a 2-bit value is its decimal digit. *)
Lemma fmt_d_digit (v : Z) : 0 <= v <= 3 -> Py.fmt_d v = decimal_digit v.
Proof.
  intros Hv.
  assert (H : v = 0 \/ v = 1 \/ v = 2 \/ v = 3) by lia.
  destruct H as [-> | [-> | [-> | ->]]]; reflexivity.
Qed.

(** ['%02X'] of a byte is its two uppercase hexadecimal digits. *)
Lemma fmt_02X_byte (o : Z) : 0 <= o < 256 -> Py.fmt_02X o = two_hex_digits o.
Proof.
  intros Ho.
  assert (Hall : forallb (fun n => String.eqb (Py.fmt_02X (Z.of_nat n))
                                     (two_hex_digits (Z.of_nat n)))
                         (seq 0 256) = true) by (vm_compute; reflexivity).
  rewrite forallb_forall in Hall.
  specialize (Hall (Z.to_nat o)).
  rewrite Z2Nat.id in Hall by lia.
  apply String.eqb_eq. apply Hall. apply in_seq. lia.
Qed.

(** The de-multiplexer only touches the two flags. *)
Lemma demultiplex_frame (valid : Z) (s s1 : Decoder) (upd : bool) :
  demultiplex valid s = Ok upd s1 ->
  bitcount s1 = bitcount s /\ octet s1 = octet s /\ dibits s1 = dibits s /\
  out_ann s1 = out_ann s /\ samplenum s1 = samplenum s.
Proof.
  intros Hd. rewrite demultiplex_eq in Hd.
  destruct (options s); [ destruct (Z.land (bitcount s) 2 =? 0) | ];
    inversion Hd; repeat split.
Qed.

Lemma between_steps_three (s : Decoder) :
  between_steps s -> bitcount s = 6 ->
  exists r2 r1 r0, dibits s = [r2; r1; r0].
Proof.
  intros [Hlen _] H6. rewrite H6 in Hlen.
  destruct (dibits s) as [ | r2 [ | r1 [ | r0 [ | r l ] ] ] ]; cbn [length] in Hlen;
    try lia.
  eauto.
Qed.

(** [putdata] with the labels of the specification, for a byte and 2-bit
    values. *)
Lemma putdata_labels (s : Decoder) (newest : dibit_ann) (older : list dibit_ann) :
  dibits s = newest :: older ->
  0 <= octet s < 256 ->
  Forall (fun d => 0 <= ann_value d <= 3) (dibits s) ->
  putdata s =
  Ok tt (set_out_ann
           (out_ann s ++ map symbol_event (newest :: older) ++
            [Annotation (ann_sample_start (List.last older newest))
                        (ann_sample_end newest)
                        ANNOTATION_CLASS_INDEX_OCTETS (two_hex_digits (octet s))])
           s).
Proof.
  intros Hd Ho Hv. rewrite (putdata_eq s newest older Hd).
  rewrite (fmt_02X_byte _ Ho). rewrite Hd in Hv.
  do 3 f_equal. f_equal.
  apply map_ext_Forall. eapply Forall_impl; [ exact Hv | ].
  intros d Hd3. cbv beta. unfold symbol_event. rewrite (fmt_d_digit _ Hd3). reflexivity.
Qed.

(** C8: [putdata] puts one di-bit annotation per stored record, over the
    record's [sample_start, sample_end] and labelled with the decimal digit
    of its value 0..3, and then one octet annotation from the
    [sample_start] of the oldest record (the last of the list) to the
    [sample_end] of the newest (the first), labelled with the two uppercase
    hexadecimal digits of [octet].  When the fourth di-bit of a byte is
    clocked in from level pins, these are exactly the five annotations
    [handle_dibit] puts. *)
Theorem byte_and_symbol_events :
  (forall (s : Decoder) (newest : dibit_ann) (older : list dibit_ann),
     dibits s = newest :: older ->
     0 <= octet s < 256 ->
     Forall (fun d => 0 <= ann_value d <= 3) (dibits s) ->
     putdata s =
     Ok tt (set_out_ann
              (out_ann s ++ map symbol_event (newest :: older) ++
               [Annotation (ann_sample_start (List.last older newest))
                           (ann_sample_end newest)
                           ANNOTATION_CLASS_INDEX_OCTETS
                           (two_hex_digits (octet s))])
              s)) /\
  (forall (clk valid dibit1 dibit0 : Z) (s s1 : Decoder) (upd : bool),
     between_steps s -> in_range s ->
     is_level dibit1 -> is_level dibit0 ->
     bitcount s = 6 ->
     demultiplex valid s = Ok upd s1 ->
     discards upd s1 = false ->
     let sn := samplenum s in
     let v := dibit_of dibit1 dibit0 in
     let byte := Z.lor (octet s) (Z.shiftl v 6) in
     exists r2 r1 r0 s',
       dibits s = [r2; r1; r0] /\
       handle_dibit clk valid dibit1 dibit0 s = Ok tt s' /\
       0 <= v <= 3 /\ 0 <= byte < 256 /\
       out_ann s' = out_ann s ++
         [Annotation sn (sn + (sn - ann_sample_start r2))
                     ANNOTATION_CLASS_INDEX_DIBITS (decimal_digit v);
          Annotation (ann_sample_start r2) sn
                     ANNOTATION_CLASS_INDEX_DIBITS (decimal_digit (ann_value r2));
          symbol_event r1;
          symbol_event r0;
          Annotation (ann_sample_start r0) (sn + (sn - ann_sample_start r2))
                     ANNOTATION_CLASS_INDEX_OCTETS (two_hex_digits byte)]).
Proof.
  split; [ exact putdata_labels | ].
  intros clk valid dibit1 dibit0 s s1 upd Hb Hr H1 H0 H6 Hd Hdis sn v byte.
  destruct (demultiplex_frame valid s s1 upd Hd) as (Hbc1 & Ho1 & Hd1 & Hout1 & Hsn1).
  assert (Hb1 : between_steps s1).
  { unfold between_steps. rewrite Hbc1, Hd1. exact Hb. }
  assert (Hr1 : in_range s1).
  { unfold in_range. rewrite Hbc1, Hd1, Ho1. exact Hr. }
  destruct (between_steps_three s Hb H6) as (r2 & r1 & r0 & Hl).
  pose proof (clocked_in_range dibit1 dibit0 s1 Hb1 Hr1 H1 H0) as [Hoct Hval].
  assert (Hdc : dibits (clocked dibit1 dibit0 s1) =
                DibitAnn v sn (sn + (sn - ann_sample_start r2))
                  :: [with_sample_end r2 sn; r1; r0]).
  { unfold clocked, next_dibits. cbn [dibits set_bitcount set_dibits set_octet].
    rewrite Hd1, Hl, Hsn1. reflexivity. }
  assert (Hoc : octet (clocked dibit1 dibit0 s1) = byte).
  { unfold clocked. cbn [octet set_bitcount set_dibits set_octet].
    rewrite Ho1, Hbc1, H6. reflexivity. }
  change (bitcount (clocked dibit1 dibit0 s1)) with (bitcount s1 + 2) in Hoct.
  rewrite Hbc1, H6, Hoc in Hoct. change (2 ^ (6 + 2)) with 256 in Hoct.
  exists r2, r1, r0. eexists.
  split; [ exact Hl | ].
  split.
  { rewrite handle_dibit_eq, Hd, Hdis, (assemble_between_eq _ _ _ Hb1), Hbc1, H6.
    reflexivity. }
  split; [ apply dibit_of_range; assumption | ].
  split; [ exact Hoct | ].
  change (6 =? 6) with true. cbv iota. unfold completed, byte_events.
  cbn [out_ann set_dibits set_octet set_bitcount set_out_ann].
  rewrite Hdc, Hoc, (fmt_02X_byte _ Hoct).
  change (out_ann (clocked dibit1 dibit0 s1)) with (out_ann s1). rewrite Hout1.
  rewrite Hdc in Hval.
  inversion Hval as [ | ? ? Hv0 Hval1 ]; subst.
  inversion Hval1 as [ | ? ? Hv2 Hval2 ]; subst.
  inversion Hval2 as [ | ? ? Hv1 Hval3 ]; subst.
  inversion Hval3 as [ | ? ? Hv00 _ ]; subst.
  cbn [map app List.last ann_value ann_sample_start ann_sample_end with_sample_end]
    in *.
  unfold symbol_event.
  rewrite (fmt_d_digit _ Hv0), (fmt_d_digit _ Hv2), (fmt_d_digit _ Hv1),
    (fmt_d_digit _ Hv00).
  reflexivity.
Qed.

(** ** The states [decode] reaches on level pins are in range *)

Lemma find_clk_edge_in_range
    (clk valid dibit1 dibit0 : Z) (first : bool) (s : Decoder) :
  between_steps s -> in_range s ->
  is_level dibit1 -> is_level dibit0 ->
  in_range (final (find_clk_edge clk valid dibit1 dibit0 first s)).
Proof.
  intros Hb Hr H1 H0. unfold find_clk_edge. mrun.
  pose proof (handle_dibit_in_range clk valid dibit1 dibit0 s Hb Hr H1 H0) as Hh.
  destruct first; mrun.
  - exact Hr.
  - destruct (Py.index (matched s) CHANNEL_INDEX_CLK) as [ changed | ]; mrun;
      [ | exact Hr ].
    destruct changed; cbn [negb]; mrun; [ | exact Hr ].
    destruct (options s); destruct (Py.truthy clk); cbn [negb];
      solve [ exact Hr | exact Hh ].
Qed.

Lemma decode_loop_in_range (source : list Frame) (s : Decoder) :
  Forall frame_levels source ->
  between_steps s -> in_range s ->
  in_range (final (decode_loop source s)).
Proof.
  intros Hl. revert s. induction Hl as [ | f rest Hf Hrest IH ]; intros s Hb Hr.
  - exact Hr.
  - cbn [decode_loop]. mrun.
    destruct Hf as (_ & _ & H1 & H0).
    pose proof (find_clk_edge_between (f_clk f) (f_valid f) (f_dibit1 f)
                  (f_dibit0 f) false (deliver f s) (deliver_between f s Hb)) as Hb'.
    pose proof (find_clk_edge_in_range (f_clk f) (f_valid f) (f_dibit1 f)
                  (f_dibit0 f) false (deliver f s) (deliver_between f s Hb) Hr
                  H1 H0) as Hr'.
    destruct (find_clk_edge (f_clk f) (f_valid f) (f_dibit1 f) (f_dibit0 f)
                false (deliver f s)) as [ [] s1 | e s1 ]; cbn [final] in *.
    + apply IH; assumption.
    + exact Hr'.
Qed.

(** Every state [decode] stops in, on a source of level pins, is in range:
    the hypotheses of the statements on completed bytes hold on real runs. *)
Lemma decode_in_range hc opt (source : list Frame) :
  Forall frame_levels source ->
  in_range (final (decode source (init hc opt))).
Proof.
  intros Hl.
  assert (Hb : between_steps (init hc opt))
    by (split; [ reflexivity | left; reflexivity ]).
  assert (Hr : in_range (init hc opt))
    by (split; [ vm_compute; split; [ discriminate | reflexivity ] | constructor ]).
  unfold decode. unfold bind at 1.
  pose proof (check_channels_final channels_len 0 (init hc opt)) as Hc.
  destruct (check_channels 0 channels_len (init hc opt)) as [ [] s0 | e s0 ];
    cbn [final] in Hc; subst s0; [ | exact Hr ].
  destruct Hl as [ | f rest Hf Hrest ]; unfold wait; mrun; [ exact Hr | ].
  apply decode_loop_in_range; assumption.
Qed.

(** ** The claim on the first di-bit's start, refuted *)

(** C7 as stated fails.  With TX_EN and accepted samples at 10, 20, 30 and 40,
    the third di-bit (at 30) is stored with [sample_end] 40 = 30 + (30 - 20),
    not 30 + (30 - 10) = 50, and the fourth is put with the end
    50 = 40 + (40 - 30), not 40 + (40 - 10) = 70: the start subtracted is
    that of the di-bit before, not that of the first di-bit of the byte. *)
Lemma first_dibit_start_refuted :
  let s2 := deliver (tx_frame 30 1 1 0) tx_two_dibits in
  let s3 := deliver (tx_frame 40 1 0 0) tx_three_dibits in
  (between_steps s2 /\ bitcount s2 <> 0 /\
   exists first s' new,
     Py.index (dibits s2) (-1) = Some first /\
     clock_in 1 0 s2 = Ok tt s' /\
     Py.index (dibits s') 0 = Some new /\
     ann_sample_start first = 10 /\
     ann_sample_end new = 40 /\
     ann_sample_end new
       <> samplenum s2 + (samplenum s2 - ann_sample_start first)) /\
  (between_steps s3 /\ bitcount s3 <> 0 /\
   exists first s',
     Py.index (dibits s3) (-1) = Some first /\
     handle_dibit 0 1 0 0 s3 = Ok tt s' /\
     ann_sample_start first = 10 /\
     out_ann s' =
       [Annotation 40 50 ANNOTATION_CLASS_INDEX_DIBITS "0";
        Annotation 30 40 ANNOTATION_CLASS_INDEX_DIBITS "2";
        Annotation 20 30 ANNOTATION_CLASS_INDEX_DIBITS "1";
        Annotation 10 20 ANNOTATION_CLASS_INDEX_DIBITS "3";
        Annotation 10 50 ANNOTATION_CLASS_INDEX_OCTETS "27"] /\
     50 <> samplenum s3 + (samplenum s3 - ann_sample_start first)).
Proof.
  cbv zeta. split.
  - split; [ split; [ reflexivity | right; right; left; reflexivity ] | ].
    split; [ discriminate | ].
    eexists. eexists. eexists.
    split; [ vm_compute; reflexivity | ].
    split; [ vm_compute; reflexivity | ].
    split; [ vm_compute; reflexivity | ].
    split; [ reflexivity | ]. split; [ reflexivity | ]. discriminate.
  - split; [ split; [ reflexivity | right; right; right; reflexivity ] | ].
    split; [ discriminate | ].
    eexists. eexists.
    split; [ vm_compute; reflexivity | ].
    split; [ vm_compute; reflexivity | ].
    split; [ reflexivity | ]. split; [ reflexivity | ]. discriminate.
Qed.

(** ** The statements at concrete inputs *)

Lemma tx_en_scenario_witness :
  exists s',
    decode_loop [tx_frame 10 1 1 1; tx_frame 20 1 0 1; tx_frame 30 1 1 0;
                 tx_frame 40 1 0 0] tx_start
      = Raise Py.EOFError s' /\
    out_ann s' =
      [Annotation 40 50 ANNOTATION_CLASS_INDEX_DIBITS "0";
       Annotation 30 40 ANNOTATION_CLASS_INDEX_DIBITS "2";
       Annotation 20 30 ANNOTATION_CLASS_INDEX_DIBITS "1";
       Annotation 10 20 ANNOTATION_CLASS_INDEX_DIBITS "3";
       Annotation 10 50 ANNOTATION_CLASS_INDEX_OCTETS "27"].
Proof.
  destruct (tx_en_scenario tx_start 10 20 30 40)
    as (s3 & s4 & s' & _ & _ & _ & _ & _ & _ & Hrun & Hout & _);
    try (vm_compute; reflexivity).
  exists s'. split; [ exact Hrun | exact Hout ].
Defined.

Lemma bitcount_between_steps_witness :
  between_steps tx_start /\
  clocked_run 1 tx_start tx_one_dibit /\
  between_steps tx_one_dibit /\ bitcount tx_one_dibit = 2.
Proof.
  assert (Hb : between_steps tx_start)
    by (split; [ reflexivity | left; reflexivity ]).
  assert (Hrun : clocked_run 1 tx_start tx_one_dibit).
  { apply (clocked_more 0 tx_start tx_start (tx_frame 10 1 1 1) true
             (set_dv 1 (set_crs 1 (deliver (tx_frame 10 1 1 1) tx_start))));
      [ apply clocked_none
      | vm_compute; reflexivity
      | vm_compute; reflexivity
      | vm_compute; reflexivity ]. }
  split; [ exact Hb | ]. split; [ exact Hrun | ].
  destruct (proj2 (proj2 (proj2 bitcount_between_steps)) 1%nat tx_start
              tx_one_dibit Hb eq_refl Hrun)
    as (Hb' & Hbc & _).
  split; [ exact Hb' | exact Hbc ].
Defined.

Lemma discard_resets_state_witness :
  bitcount tx_two_dibits = 4 /\
  exists s',
    handle_dibit 0 0 1 1 tx_two_dibits = Ok tt s' /\
    bitcount s' = 0 /\ octet s' = 0 /\ dibits s' = [] /\
    out_ann s' = out_ann tx_two_dibits.
Proof.
  split; [ reflexivity | ].
  destruct (discard_resets_state 0 0 1 1 tx_two_dibits
              (set_dv 0 (set_crs 0 tx_two_dibits)) true)
    as (s' & Hh & _ & Hbc & Ho & Hd & Hout & _);
    [ reflexivity | left; split; reflexivity | ].
  exists s'. repeat split; assumption.
Defined.

Lemma edge_gate_witness :
  let s := deliver (tx_frame 10 1 1 1) tx_start in
  Py.index (matched s) CHANNEL_INDEX_CLK = Some true /\
  edge_wanted (options s) 0 = true /\
  find_clk_edge 0 1 1 1 false s =
    if true && edge_wanted (options s) 0
    then handle_dibit 0 1 1 1 s
    else Ok tt s.
Proof.
  cbv zeta.
  assert (Hm : Py.index (matched (deliver (tx_frame 10 1 1 1) tx_start))
                 CHANNEL_INDEX_CLK = Some true) by (vm_compute; reflexivity).
  split; [ exact Hm | ]. split; [ vm_compute; reflexivity | ].
  destruct (edge_gate 0 1 1 1 (deliver (tx_frame 10 1 1 1) tx_start))
    as (_ & Hlater & _).
  exact (Hlater true Hm).
Defined.

Lemma provisional_sample_end_witness :
  let s := deliver (tx_frame 30 1 1 0) tx_two_dibits in
  between_steps s /\
  exists s', clock_in 1 0 s = Ok tt s' /\ bitcount s' = 6.
Proof.
  cbv zeta.
  assert (Hb : between_steps (deliver (tx_frame 30 1 1 0) tx_two_dibits))
    by (split; [ reflexivity | right; right; left; reflexivity ]).
  split; [ exact Hb | ].
  destruct (provisional_sample_end 1 0 _ Hb) as (s' & Hc & Hbc & _).
  exists s'. split; [ exact Hc | exact Hbc ].
Defined.

Lemma extrapolation_uses_previous_dibit_witness :
  let s := deliver (tx_frame 30 1 1 0) tx_two_dibits in
  between_steps s /\ bitcount s <> 0 /\
  chained (dibits s) /\ Forall lasting (List.tl (dibits s)) /\
  exists prev first s' new,
    Py.index (dibits s) 0 = Some prev /\
    Py.index (dibits s) (-1) = Some first /\
    clock_in 1 0 s = Ok tt s' /\
    Py.index (dibits s') 0 = Some new /\
    ann_sample_end new = samplenum s + (samplenum s - ann_sample_start prev) /\
    ann_sample_start first < ann_sample_start prev /\
    ann_sample_end new <> samplenum s + (samplenum s - ann_sample_start first).
Proof.
  cbv zeta.
  assert (Hb : between_steps (deliver (tx_frame 30 1 1 0) tx_two_dibits))
    by (split; [ reflexivity | right; right; left; reflexivity ]).
  assert (Hne : bitcount (deliver (tx_frame 30 1 1 0) tx_two_dibits) <> 0)
    by discriminate.
  assert (Hch : chained (dibits (deliver (tx_frame 30 1 1 0) tx_two_dibits)))
    by (split; [ reflexivity | exact I ]).
  assert (Hl : Forall lasting
                 (List.tl (dibits (deliver (tx_frame 30 1 1 0) tx_two_dibits))))
    by (constructor; [ reflexivity | constructor ]).
  assert (Hn2 : bitcount (deliver (tx_frame 30 1 1 0) tx_two_dibits) <> 2)
    by discriminate.
  split; [ exact Hb | ]. split; [ exact Hne | ].
  split; [ exact Hch | ]. split; [ exact Hl | ].
  destruct (extrapolation_uses_previous_dibit 1 0 _ Hb Hne)
    as (prev & s' & new & Hp & Hc & Hn & _ & He & _ & Honly).
  destruct (Honly Hch Hl) as (first & Hf & _ & Hlater).
  destruct (Hlater Hn2) as [Hlt Hdiff].
  exists prev, first, s', new.
  split; [ exact Hp | ]. split; [ exact Hf | ]. split; [ exact Hc | ].
  split; [ exact Hn | ]. split; [ exact He | ]. split; [ exact Hlt | exact Hdiff ].
Defined.

Lemma byte_and_symbol_events_witness :
  let s := deliver (tx_frame 40 1 0 0) tx_three_dibits in
  between_steps s /\ in_range s /\ bitcount s = 6 /\
  exists s', handle_dibit 0 1 0 0 s = Ok tt s'.
Proof.
  cbv zeta.
  assert (Hb : between_steps (deliver (tx_frame 40 1 0 0) tx_three_dibits))
    by (split; [ reflexivity | right; right; right; reflexivity ]).
  assert (Hr : in_range (deliver (tx_frame 40 1 0 0) tx_three_dibits)).
  { split; [ split; [ discriminate | reflexivity ] | ].
    repeat constructor; discriminate. }
  split; [ exact Hb | ]. split; [ exact Hr | ]. split; [ reflexivity | ].
  destruct (proj2 byte_and_symbol_events 0 1 0 0
              (deliver (tx_frame 40 1 0 0) tx_three_dibits)
              (set_dv 1 (set_crs 1 (deliver (tx_frame 40 1 0 0) tx_three_dibits)))
              true Hb Hr (or_introl eq_refl) (or_introl eq_refl) eq_refl eq_refl
              eq_refl)
    as (r2 & r1 & r0 & s' & _ & Hh & _).
  exists s'. exact Hh.
Defined.

Lemma missing_channel_fails_witness :
  let s := init (fun channel => negb (channel =? CHANNEL_INDEX_RXD0)) CRS_DV in
  let source := [crs_dv_frame 0 1 0 0; crs_dv_frame 10 1 1 1] in
  has_channel s CHANNEL_INDEX_RXD0 = false /\
  decode source s = Raise Py.ChannelError s /\
  waits (final (decode source s)) = waits s.
Proof.
  cbv zeta.
  assert (Hc : has_channel
                 (init (fun channel => negb (channel =? CHANNEL_INDEX_RXD0)) CRS_DV)
                 CHANNEL_INDEX_RXD0 = false) by (vm_compute; reflexivity).
  split; [ exact Hc | ].
  destruct (missing_channel_fails
              [crs_dv_frame 0 1 0 0; crs_dv_frame 10 1 1 1]
              (init (fun channel => negb (channel =? CHANNEL_INDEX_RXD0)) CRS_DV)
              CHANNEL_INDEX_RXD0)
    as (Hd & Hw & _);
    [ split; [ discriminate | reflexivity ] | exact Hc | ].
  split; [ exact Hd | exact Hw ].
Defined.

Lemma flags_survive_resets_witness :
  let s := deliver (crs_dv_frame 50 0 0 0) crs_dv_byte_done in
  options s = CRS_DV /\ Z.land (bitcount s) 2 = 0 /\ dv s = 1 /\
  negb (Py.truthy 0) && negb (Py.truthy (dv s)) = false /\
  handle_dibit 1 0 0 0 s =
    if negb (Py.truthy 0) && negb (Py.truthy (dv s))
    then reset_decoder_state (set_crs 0 s)
    else assemble 0 0 (set_crs 0 s).
Proof.
  cbv zeta.
  assert (Ho : options (deliver (crs_dv_frame 50 0 0 0) crs_dv_byte_done) = CRS_DV)
    by (vm_compute; reflexivity).
  assert (Hp : Z.land (bitcount (deliver (crs_dv_frame 50 0 0 0) crs_dv_byte_done)) 2
               = 0) by (vm_compute; reflexivity).
  split; [ exact Ho | ]. split; [ exact Hp | ].
  split; [ vm_compute; reflexivity | ]. split; [ vm_compute; reflexivity | ].
  destruct flags_survive_resets as (_ & _ & _ & Hphase).
  destruct (Hphase 1 0 0 0 (deliver (crs_dv_frame 50 0 0 0) crs_dv_byte_done) Ho Hp)
    as (_ & Hh).
  exact Hh.
Defined.

(** * The rest of the decoder *)

(** ** The loop of [decode], iteration by iteration *)

Lemma decode_loop_cons (f : Frame) (rest : list Frame) (s : Decoder) :
  decode_loop (f :: rest) s =
  match loop_iteration f s with
  | Ok _ s1 => decode_loop rest s1
  | Raise e s1 => Raise e s1
  end.
Proof.
  cbn [decode_loop]. unfold loop_iteration. mrun.
  destruct (find_clk_edge (f_clk f) (f_valid f) (f_dibit1 f) (f_dibit0 f) false
              (deliver f s)); reflexivity.
Qed.

Lemma index_clk_none (m : list bool) :
  Py.index m CHANNEL_INDEX_CLK = None -> m = [].
Proof. destruct m; [ reflexivity | discriminate ]. Qed.

(** What one iteration does with its frame: nothing beyond delivering it,
    [handle_dibit], or the [IndexError] of an empty [matched]. *)
Lemma loop_iteration_cases (f : Frame) (s : Decoder) :
  loop_iteration f s = Ok tt (deliver f s) \/
  loop_iteration f s =
    handle_dibit (f_clk f) (f_valid f) (f_dibit1 f) (f_dibit0 f) (deliver f s) \/
  (loop_iteration f s = Raise Py.IndexError (deliver f s) /\ f_matched f = []).
Proof.
  unfold loop_iteration, find_clk_edge. mrun.
  destruct (Py.index (f_matched f) CHANNEL_INDEX_CLK) as [ changed | ] eqn:Hm; mrun.
  - destruct changed; cbn [negb]; mrun; [ | left; reflexivity ].
    destruct (options s); destruct (Py.truthy (f_clk f)); cbn [negb];
      solve [ left; reflexivity | right; left; reflexivity ].
  - right. right. split; [ reflexivity | apply index_clk_none; exact Hm ].
Qed.

(** Where [decode] can stop: in the state it started in (a missing channel),
    waiting for a first sample that never comes, or in the loop after the
    first frame was delivered. *)
Lemma decode_cases (source : list Frame) (s : Decoder) :
  (check_channels 0 channels_len s = Raise Py.ChannelError s /\
   decode source s = Raise Py.ChannelError s) \/
  (check_channels 0 channels_len s = Ok tt s /\
   match source with
   | [] => decode source s = Raise Py.EOFError (count_wait s)
   | f :: rest => decode source s = decode_loop rest (deliver f s)
   end).
Proof.
  pose proof (check_channels_final channels_len 0 s) as Hc.
  destruct (check_channels 0 channels_len s) as [ [] s0 | e s0 ] eqn:Hcc;
    cbn [final] in Hc; subst s0.
  - right. split; [ reflexivity | ].
    destruct source as [ | f rest ]; unfold decode; unfold bind at 1;
      rewrite Hcc; reflexivity.
  - assert (He : e = Py.ChannelError).
    { revert Hcc. generalize 0. generalize channels_len.
      intros n. induction n as [ | n IH ]; intros c; cbn [check_channels]; mrun.
      - discriminate.
      - destruct (has_channel s c); cbn [negb].
        + apply IH.
        + intros H. inversion H. reflexivity. }
    subst e. left. split; [ reflexivity | ].
    unfold decode. unfold bind at 1. rewrite Hcc. reflexivity.
Qed.

(** An invariant of the iterations is an invariant of the loop, along a
    source whose frames follow one another under [A]. *)
Lemma decode_loop_follows (A : Z -> Frame -> Prop) (I : Decoder -> Prop) :
  (forall s f, A (samplenum s) f -> I s ->
               I (final (loop_iteration f s)) /\
               samplenum (final (loop_iteration f s)) = f_samplenum f) ->
  (forall s, I s -> I (count_wait s)) ->
  forall source s,
    follows A (samplenum s) source -> I s ->
    I (final (decode_loop source s)).
Proof.
  intros Hstep Hwait source.
  induction source as [ | f rest IH ]; intros s Hf Hi.
  - cbn [decode_loop]. mrun. apply Hwait. exact Hi.
  - destruct Hf as [Ha Hrest]. rewrite decode_loop_cons.
    destruct (Hstep s f Ha Hi) as [Hi' Hsn].
    destruct (loop_iteration f s) as [ [] s1 | e s1 ]; cbn [final] in *.
    + apply IH; [ rewrite Hsn; exact Hrest | exact Hi' ].
    + exact Hi'.
Qed.

(** ** Attributes the decoding never writes *)

Section Untouched.
Context {B : Type} (f : Decoder -> B).
Hypothesis f_crs : forall v s, f (set_crs v s) = f s.
Hypothesis f_dv : forall v s, f (set_dv v s) = f s.
Hypothesis f_bitcount : forall v s, f (set_bitcount v s) = f s.
Hypothesis f_octet : forall v s, f (set_octet v s) = f s.
Hypothesis f_dibits : forall v s, f (set_dibits v s) = f s.
Hypothesis f_out_ann : forall v s, f (set_out_ann v s) = f s.

Ltac untouched :=
  cbv zeta;
  repeat first
    [ apply preserves_ret
    | apply preserves_gets
    | apply preserves_raise
    | apply preserves_orRaise
    | apply preserves_modify; intros ?;
      first [ apply f_crs | apply f_dv | apply f_bitcount | apply f_octet
            | apply f_dibits | apply f_out_ann ]
    | apply preserves_bind; [ | intros ? ]
    | match goal with
      | |- preserves _ (if ?b then _ else _) => destruct b
      | |- preserves _ (match ?x with _ => _ end) => destruct x
      end ].

Lemma put_dibits_untouched (l : list dibit_ann) : preserves f (put_dibits l).
Proof.
  induction l as [ | d l IH ]; cbn [put_dibits]; unfold put; untouched.
  exact IH.
Qed.

Lemma handle_dibit_untouched (clk valid dibit1 dibit0 : Z) :
  preserves f (handle_dibit clk valid dibit1 dibit0).
Proof.
  unfold handle_dibit, demultiplex, assemble, clock_in, emit_completed, putdata,
    reset_decoder_state, put.
  untouched; apply put_dibits_untouched.
Qed.

Lemma find_clk_edge_untouched (clk valid dibit1 dibit0 : Z) (first : bool) :
  preserves f (find_clk_edge clk valid dibit1 dibit0 first).
Proof.
  unfold find_clk_edge.
  untouched; first [ apply handle_dibit_untouched | apply put_dibits_untouched ].
Qed.
End Untouched.

Lemma loop_iteration_samplenum (f : Frame) (s : Decoder) :
  samplenum (final (loop_iteration f s)) = f_samplenum f.
Proof.
  unfold loop_iteration. unfold bind, modify.
  apply (find_clk_edge_untouched samplenum); reflexivity.
Qed.

Lemma loop_iteration_waits (f : Frame) (s : Decoder) :
  waits (final (loop_iteration f s)) = S (waits s).
Proof.
  unfold loop_iteration. unfold bind, modify.
  apply (find_clk_edge_untouched waits); reflexivity.
Qed.

(** ** Annotations are only ever appended *)

Lemma appends_ret {A : Type} (a : A) : appends (ret a).
Proof. intros s. exists []. symmetry. apply app_nil_r. Qed.

Lemma appends_gets {A : Type} (g : Decoder -> A) : appends (gets g).
Proof. intros s. exists []. symmetry. apply app_nil_r. Qed.

Lemma appends_raise {A : Type} (e : Py.exn) : appends (@raise A e).
Proof. intros s. exists []. symmetry. apply app_nil_r. Qed.

Lemma appends_orRaise {A : Type} (e : Py.exn) (o : option A) :
  appends (orRaise e o).
Proof. destruct o; [ apply appends_ret | apply appends_raise ]. Qed.

Lemma appends_modify (g : Decoder -> Decoder) :
  (forall s, exists later, out_ann (g s) = out_ann s ++ later) ->
  appends (modify g).
Proof. intros Hg s. apply Hg. Qed.

Lemma appends_bind {A C : Type} (m : M A) (k : A -> M C) :
  appends m -> (forall a, appends (k a)) -> appends (bind m k).
Proof.
  intros Hm Hk s. unfold bind.
  destruct (Hm s) as [l1 H1]. destruct (m s) as [a s1 | e s1]; cbn [final] in *.
  - destruct (Hk a s1) as [l2 H2]. exists (l1 ++ l2).
    rewrite H2, H1, app_assoc. reflexivity.
  - exists l1. exact H1.
Qed.

Ltac appends_step :=
  first
    [ apply appends_ret
    | apply appends_gets
    | apply appends_raise
    | apply appends_orRaise
    | apply appends_modify; intros ?;
      cbn [out_ann set_crs set_dv set_bitcount set_octet set_dibits set_out_ann
           deliver count_wait];
      first [ exists []; rewrite app_nil_r; reflexivity | eexists; reflexivity ]
    | apply appends_bind; [ | intros ? ]
    | match goal with
      | |- appends (if ?b then _ else _) => destruct b
      | |- appends (match ?x with _ => _ end) => destruct x
      end ].

Lemma put_dibits_appends (l : list dibit_ann) : appends (put_dibits l).
Proof.
  induction l as [ | d l IH ]; cbn [put_dibits]; unfold put; cbv zeta;
    repeat appends_step.
  exact IH.
Qed.

Lemma handle_dibit_appends (clk valid dibit1 dibit0 : Z) :
  appends (handle_dibit clk valid dibit1 dibit0).
Proof.
  unfold handle_dibit, demultiplex, assemble, clock_in, emit_completed, putdata,
    reset_decoder_state, put.
  cbv zeta. repeat appends_step; apply put_dibits_appends.
Qed.

Lemma loop_iteration_appends (f : Frame) : appends (loop_iteration f).
Proof.
  unfold loop_iteration, find_clk_edge. cbv zeta.
  repeat appends_step;
    first [ apply handle_dibit_appends | apply put_dibits_appends ].
Qed.

Lemma decode_loop_appends (source : list Frame) : appends (decode_loop source).
Proof.
  induction source as [ | f rest IH ]; intros s.
  - exists []. symmetry. apply app_nil_r.
  - rewrite decode_loop_cons.
    destruct (loop_iteration_appends f s) as [l1 H1].
    destruct (loop_iteration f s) as [ [] s1 | e s1 ]; cbn [final] in *.
    + destruct (IH s1) as [l2 H2]. exists (l1 ++ l2).
      rewrite H2, H1, app_assoc. reflexivity.
    + exists l1. exact H1.
Qed.

Lemma decode_appends (source : list Frame) : appends (decode source).
Proof.
  intros s. destruct (decode_cases source s) as [[_ ->] | [_ Hd]].
  - exists []. symmetry. apply app_nil_r.
  - destruct source as [ | f rest ]; rewrite Hd.
    + exists []. symmetry. apply app_nil_r.
    + apply (decode_loop_appends rest (deliver f s)).
Qed.

Lemma decode_loop_streaming (source more : list Frame) (s : Decoder) :
  exists later,
    out_ann (final (decode_loop (source ++ more) s))
      = out_ann (final (decode_loop source s)) ++ later.
Proof.
  revert s. induction source as [ | f rest IH ]; intros s.
  - cbn [app]. apply (decode_loop_appends more s).
  - cbn [app]. rewrite !decode_loop_cons.
    destruct (loop_iteration f s) as [ [] s1 | e s1 ].
    + apply IH.
    + exists []. symmetry. apply app_nil_r.
Qed.

(** X1: annotations do not depend on samples still to come.  What [decode]
    has put when the source ends after [source] is a prefix of what it has
    put when the source goes on with [more]; in particular nothing put is
    ever taken back or changed. *)
Theorem decode_streaming (source more : list Frame) (s : Decoder) :
  exists later,
    out_ann (final (decode (source ++ more) s))
      = out_ann (final (decode source s)) ++ later.
Proof.
  destruct (decode_cases source s) as [[Hc Hs] | [Hc Hs]];
    destruct (decode_cases (source ++ more) s) as [[Hc' Hm] | [Hc' Hm]];
    try (rewrite Hc in Hc'; discriminate).
  - rewrite Hs, Hm. exists []. symmetry. apply app_nil_r.
  - destruct source as [ | f rest ].
    + cbn [app] in *. rewrite Hs. apply (decode_appends more s).
    + cbn [app] in *. rewrite Hs, Hm. apply decode_loop_streaming.
Qed.

(** ** The sample rate is stored and never read *)

Lemma rate_blind_ret {A : Type} (a : A) : rate_blind (ret a).
Proof. intros r s. reflexivity. Qed.

Lemma rate_blind_raise {A : Type} (e : Py.exn) : rate_blind (@raise A e).
Proof. intros r s. reflexivity. Qed.

Lemma rate_blind_orRaise {A : Type} (e : Py.exn) (o : option A) :
  rate_blind (orRaise e o).
Proof. destruct o; intros r s; reflexivity. Qed.

Lemma rate_blind_gets {A : Type} (g : Decoder -> A) :
  (forall r s, g (set_samplerate r s) = g s) -> rate_blind (gets g).
Proof. intros Hg r s. unfold gets. rewrite Hg. reflexivity. Qed.

Lemma rate_blind_modify (g : Decoder -> Decoder) :
  (forall r s, g (set_samplerate r s) = set_samplerate r (g s)) ->
  rate_blind (modify g).
Proof. intros Hg r s. unfold modify. rewrite Hg. reflexivity. Qed.

Lemma rate_blind_bind {A C : Type} (m : M A) (k : A -> M C) :
  rate_blind m -> (forall a, rate_blind (k a)) -> rate_blind (bind m k).
Proof.
  intros Hm Hk r s. unfold bind. rewrite Hm.
  destruct (m s) as [a s1 | e s1]; cbn [map_outcome].
  - apply Hk.
  - reflexivity.
Qed.

Ltac rate_blind_step :=
  first
    [ apply rate_blind_ret
    | apply rate_blind_raise
    | apply rate_blind_orRaise
    | apply rate_blind_gets; intros ? ?; reflexivity
    | apply rate_blind_modify; intros ? ?; reflexivity
    | apply rate_blind_bind; [ | intros ? ]
    | match goal with
      | |- rate_blind (if ?b then _ else _) => destruct b
      | |- rate_blind (match ?x with _ => _ end) => destruct x
      end ].

Lemma put_dibits_rate_blind (l : list dibit_ann) : rate_blind (put_dibits l).
Proof.
  induction l as [ | d l IH ]; cbn [put_dibits]; unfold put; cbv zeta;
    repeat rate_blind_step.
  exact IH.
Qed.

Lemma handle_dibit_rate_blind (clk valid dibit1 dibit0 : Z) :
  rate_blind (handle_dibit clk valid dibit1 dibit0).
Proof.
  unfold handle_dibit, demultiplex, assemble, clock_in, emit_completed, putdata,
    reset_decoder_state, put.
  cbv zeta. repeat rate_blind_step; apply put_dibits_rate_blind.
Qed.

Lemma find_clk_edge_rate_blind (clk valid dibit1 dibit0 : Z) (first : bool) :
  rate_blind (find_clk_edge clk valid dibit1 dibit0 first).
Proof.
  unfold find_clk_edge. cbv zeta.
  repeat rate_blind_step;
    first [ apply handle_dibit_rate_blind | apply put_dibits_rate_blind ].
Qed.

Lemma check_channels_rate_blind (n : nat) (channel : Z) :
  rate_blind (check_channels channel n).
Proof.
  revert channel. induction n as [ | n IH ]; intros channel; cbn [check_channels].
  - apply rate_blind_ret.
  - apply rate_blind_bind; [ apply rate_blind_gets; intros ? ?; reflexivity | ].
    intros present. destruct (negb present);
      [ apply rate_blind_raise | apply IH ].
Qed.

Lemma decode_loop_rate_blind (source : list Frame) : rate_blind (decode_loop source).
Proof.
  induction source as [ | f rest IH ]; cbn [decode_loop].
  - repeat rate_blind_step.
  - apply rate_blind_bind; [ apply rate_blind_modify; intros ? ?; reflexivity | ].
    intros _. apply rate_blind_bind; [ apply find_clk_edge_rate_blind | ].
    intros _. exact IH.
Qed.

Lemma decode_rate_blind (source : list Frame) : rate_blind (decode source).
Proof.
  unfold decode.
  apply rate_blind_bind; [ apply check_channels_rate_blind | intros _ ].
  apply rate_blind_bind.
  - destruct source as [ | f rest ]; unfold wait; repeat rate_blind_step.
  - intros [f rest].
    apply rate_blind_bind; [ apply find_clk_edge_rate_blind | ].
    intros _. apply decode_loop_rate_blind.
Qed.

(** X2: [metadata] stores the sample rate under the host's key and ignores
    every other key, and the sample rate has no influence on decoding: after
    any [metadata] call, [decode] stops with the same exception, has put the
    same annotations and leaves the same decoding state as without the call. *)
Theorem metadata_does_not_change_decoding
    (SRD_CONF_SAMPLERATE key value : Z) (source : list Frame) (s : Decoder) :
  let s' := final (metadata SRD_CONF_SAMPLERATE key value s) in
  s' = (if key =? SRD_CONF_SAMPLERATE then set_samplerate (Some value) s else s) /\
  decode source s' = map_outcome (fun t => set_samplerate (samplerate s') t)
                                 (decode source s) /\
  raised (decode source s') = raised (decode source s) /\
  out_ann (final (decode source s')) = out_ann (final (decode source s)) /\
  dibits (final (decode source s')) = dibits (final (decode source s)) /\
  octet (final (decode source s')) = octet (final (decode source s)) /\
  bitcount (final (decode source s')) = bitcount (final (decode source s)) /\
  crs (final (decode source s')) = crs (final (decode source s)) /\
  dv (final (decode source s')) = dv (final (decode source s)).
Proof.
  cbv zeta.
  assert (Hs : final (metadata SRD_CONF_SAMPLERATE key value s)
               = set_samplerate
                   (samplerate (final (metadata SRD_CONF_SAMPLERATE key value s))) s).
  { unfold metadata. destruct (key =? SRD_CONF_SAMPLERATE); mrun;
      [ reflexivity | destruct s; reflexivity ]. }
  split.
  { unfold metadata. destruct (key =? SRD_CONF_SAMPLERATE); reflexivity. }
  assert (Hd : decode source (final (metadata SRD_CONF_SAMPLERATE key value s))
               = map_outcome
                   (fun t => set_samplerate
                     (samplerate (final (metadata SRD_CONF_SAMPLERATE key value s))) t)
                   (decode source s)).
  { rewrite Hs at 1. apply decode_rate_blind. }
  split; [ exact Hd | ].
  rewrite Hd. destruct (decode source s); repeat split.
Qed.

(** ** A well-formed run ends only when the samples do *)

Lemma decode_loop_runs_to_end (source : list Frame) (s : Decoder) :
  between_steps s ->
  Forall has_clk_match source ->
  exists s',
    decode_loop source s = Raise Py.EOFError s' /\
    waits s' = S (waits s + length source)%nat /\
    between_steps s'.
Proof.
  intros Hb Hm. revert s Hb.
  induction Hm as [ | f rest Hf Hrest IH ]; intros s Hb.
  - exists (count_wait s). split; [ reflexivity | ].
    split; [ cbn [waits count_wait length]; lia | exact Hb ].
  - rewrite decode_loop_cons.
    pose proof (loop_iteration_waits f s) as Hw.
    assert (Hok : exists s1, loop_iteration f s = Ok tt s1 /\ between_steps s1).
    { destruct (loop_iteration_cases f s) as [H | [H | [_ H]]].
      - exists (deliver f s). split; [ exact H | exact Hb ].
      - rewrite H. apply handle_dibit_between. exact Hb.
      - contradiction. }
    destruct Hok as (s1 & Hit & Hb1). rewrite Hit in *. cbn [final] in Hw.
    destruct (IH s1 Hb1) as (s' & Hrun & Hw' & Hb').
    exists s'. split; [ exact Hrun | ].
    split; [ cbn [length]; lia | exact Hb' ].
Qed.

(** X3: with the four channels connected and a clock-condition entry in
    [matched] for every sample after the first, [decode], started between two
    steps, raises nothing of its own: it consumes every frame of the source
    (one [wait] per frame and a last one that finds the source exhausted) and
    stops with the source's end-of-stream, between two steps. *)
Theorem decode_runs_to_end (source : list Frame) (s : Decoder) :
  all_channels s ->
  between_steps s ->
  Forall has_clk_match (List.tl source) ->
  exists s',
    decode source s = Raise Py.EOFError s' /\
    waits s' = S (waits s + length source)%nat /\
    between_steps s'.
Proof.
  intros Hc Hb Hm.
  assert (Hcc : check_channels 0 channels_len s = Ok tt s).
  { apply check_channels_present. intros channel Hr. apply Hc. lia. }
  destruct (decode_cases source s) as [[Hx _] | [_ Hd]];
    [ rewrite Hcc in Hx; discriminate | ].
  destruct source as [ | f rest ]; rewrite Hd.
  - exists (count_wait s). split; [ reflexivity | ].
    split; [ cbn [waits count_wait length]; lia | exact Hb ].
  - cbn [List.tl] in Hm.
    destruct (decode_loop_runs_to_end rest (deliver f s) (deliver_between f s Hb) Hm)
      as (s' & Hrun & Hw & Hb').
    exists s'. split; [ exact Hrun | ].
    split; [ cbn [length waits deliver] in *; lia | exact Hb' ].
Qed.

(** ** Packing and chaining of the stored di-bits *)

Lemma tidy_reset (s : Decoder) :
  tidy (set_dibits [] (set_octet 0 (set_bitcount 0 s))).
Proof. split; [ apply discard_between | split; [ reflexivity | exact I ] ]. Qed.

Lemma clocked_between (dibit1 dibit0 : Z) (s : Decoder) :
  between_steps s -> bitcount s <> 6 -> between_steps (clocked dibit1 dibit0 s).
Proof.
  intros Hb H6. split; [ apply clocked_length; exact Hb | ].
  change (bitcount (clocked dibit1 dibit0 s)) with (bitcount s + 2).
  destruct Hb as [_ Hbc]. lia.
Qed.

(** Clocking a di-bit in keeps the accumulator equal to the packing of the
    records and keeps the records chained. *)
Lemma clocked_packed_chained (dibit1 dibit0 : Z) (s : Decoder) :
  tidy s ->
  octet (clocked dibit1 dibit0 s) = pack_dibits (dibits (clocked dibit1 dibit0 s)) /\
  chained (dibits (clocked dibit1 dibit0 s)).
Proof.
  intros ((Hlen & _) & Hpack & Hch).
  unfold clocked, next_dibits.
  cbn [octet dibits set_bitcount set_dibits set_octet].
  rewrite Hpack, Hlen.
  destruct (dibits s) as [ | prev older ].
  - split; [ reflexivity | exact I ].
  - split; [ reflexivity | ].
    split; [ reflexivity | ].
    destruct older as [ | o older' ]; [ exact I | exact Hch ].
Qed.

Lemma four_records (l : list dibit_ann) :
  length l = 4%nat -> exists d3 d2 d1 d0, l = [d3; d2; d1; d0].
Proof.
  destruct l as [ | d3 [ | d2 [ | d1 [ | d0 [ | d l ] ] ] ] ]; try discriminate.
  eauto.
Qed.

Lemma grouped_snoc (R : list dibit_ann -> Prop) (l : list annotation)
    (q : list dibit_ann) :
  grouped R l -> length q = 4%nat -> chained q -> R q ->
  grouped R (l ++ group_events q).
Proof.
  intros (quads & Hl & Hq) Hlen Hch Hr.
  exists (quads ++ [q]). split.
  - rewrite map_app, concat_app, Hl. cbn [map concat]. rewrite app_nil_r.
    reflexivity.
  - apply Forall_app. split; [ exact Hq | ]. repeat constructor; assumption.
Qed.

(** One [handle_dibit] between two steps keeps the state tidy and the
    annotations grouped in whole bytes, when the records of a completed byte
    satisfy [R]. *)
Lemma handle_dibit_grouped (R : list dibit_ann -> Prop)
    (clk valid dibit1 dibit0 : Z) (s : Decoder) :
  tidy s ->
  grouped R (out_ann s) ->
  (forall upd s1,
     demultiplex valid s = Ok upd s1 -> discards upd s1 = false ->
     bitcount s = 6 -> R (dibits (clocked dibit1 dibit0 s1))) ->
  tidy (final (handle_dibit clk valid dibit1 dibit0 s)) /\
  grouped R (out_ann (final (handle_dibit clk valid dibit1 dibit0 s))).
Proof.
  intros Ht Hg Hr. pose proof Ht as (Hb & Hpack & Hch).
  rewrite handle_dibit_eq.
  destruct (demultiplex_between valid s Hb) as (upd & s1 & Hd & Hb1 & _).
  destruct (demultiplex_frame valid s s1 upd Hd) as (Hbc1 & Ho1 & Hd1 & Hout1 & _).
  assert (Ht1 : tidy s1).
  { split; [ exact Hb1 | ]. rewrite Ho1, Hd1. split; assumption. }
  rewrite Hd. destruct (discards upd s1) eqn:Hdis.
  - rewrite reset_decoder_state_eq. cbn [final].
    split; [ apply tidy_reset | ].
    cbn [out_ann set_dibits set_octet set_bitcount]. rewrite Hout1. exact Hg.
  - rewrite (assemble_between_eq _ _ _ Hb1). cbn [final].
    destruct (clocked_packed_chained dibit1 dibit0 s1 Ht1) as [Hp' Hc'].
    destruct (bitcount s1 =? 6) eqn:E.
    + apply Z.eqb_eq in E.
      split; [ apply tidy_reset | ].
      unfold completed. cbn [out_ann set_dibits set_octet set_bitcount set_out_ann].
      change (out_ann (clocked dibit1 dibit0 s1)) with (out_ann s1).
      rewrite Hout1.
      assert (Hev : byte_events (clocked dibit1 dibit0 s1)
                    = group_events (dibits (clocked dibit1 dibit0 s1))).
      { unfold byte_events, group_events. rewrite Hp'.
        destruct (dibits (clocked dibit1 dibit0 s1)); reflexivity. }
      rewrite Hev. apply grouped_snoc; [ exact Hg | | exact Hc' | ].
      * pose proof (clocked_length dibit1 dibit0 s1 Hb1) as Hl.
        change (bitcount (clocked dibit1 dibit0 s1)) with (bitcount s1 + 2) in Hl.
        lia.
      * apply (Hr upd s1 Hd Hdis). rewrite <- Hbc1. exact E.
    + apply Z.eqb_neq in E.
      split; [ | change (out_ann (clocked dibit1 dibit0 s1)) with (out_ann s1);
                 rewrite Hout1; exact Hg ].
      split; [ apply clocked_between; assumption | split; assumption ].
Qed.

Section WholeBytes.
Variable R : list dibit_ann -> Prop.
Variable A : Z -> Frame -> Prop.
Variable S : Decoder -> Prop.

Hypothesis S_deliver : forall s f, A (samplenum s) f -> S s -> S (deliver f s).
Hypothesis S_wait : forall s, S s -> S (count_wait s).
Hypothesis S_handle :
  forall s f, A (samplenum s) f -> tidy s -> S s ->
    S (final (handle_dibit (f_clk f) (f_valid f) (f_dibit1 f) (f_dibit0 f)
                (deliver f s))).
Hypothesis R_completed :
  forall s f upd s1, A (samplenum s) f -> tidy s -> S s ->
    bitcount s = 6 ->
    demultiplex (f_valid f) (deliver f s) = Ok upd s1 ->
    discards upd s1 = false ->
    R (dibits (clocked (f_dibit1 f) (f_dibit0 f) s1)).

Lemma loop_iteration_whole_bytes (f : Frame) (s : Decoder) :
  A (samplenum s) f ->
  tidy s /\ S s /\ grouped R (out_ann s) ->
  tidy (final (loop_iteration f s)) /\
  S (final (loop_iteration f s)) /\
  grouped R (out_ann (final (loop_iteration f s))).
Proof.
  intros Ha (Ht & Hs & Hg).
  destruct (loop_iteration_cases f s) as [H | [H | [H _]]]; rewrite H.
  - cbn [final]. split; [ exact Ht | ]. split; [ apply S_deliver; assumption | exact Hg ].
  - destruct (handle_dibit_grouped R (f_clk f) (f_valid f) (f_dibit1 f) (f_dibit0 f)
                (deliver f s) Ht Hg) as [Ht' Hg'].
    { intros upd s1 Hd Hdis H6. apply (R_completed s f upd s1); assumption. }
    split; [ exact Ht' | ]. split; [ apply S_handle; assumption | exact Hg' ].
  - cbn [final]. split; [ exact Ht | ]. split; [ apply S_deliver; assumption | exact Hg ].
Qed.

Lemma decode_loop_whole_bytes (source : list Frame) (s : Decoder) :
  follows A (samplenum s) source ->
  tidy s -> S s -> grouped R (out_ann s) ->
  tidy (final (decode_loop source s)) /\
  S (final (decode_loop source s)) /\
  grouped R (out_ann (final (decode_loop source s))).
Proof.
  intros Hf Ht Hs Hg.
  apply (decode_loop_follows A
           (fun t => tidy t /\ S t /\ grouped R (out_ann t))).
  - intros t f Ha Hi. split; [ apply loop_iteration_whole_bytes; assumption | ].
    apply loop_iteration_samplenum.
  - intros t (Ht' & Hs' & Hg'). split; [ exact Ht' | ].
    split; [ apply S_wait; exact Hs' | exact Hg' ].
  - exact Hf.
  - split; [ exact Ht | split; assumption ].
Qed.

(** [decode] from a tidy state: the first frame is delivered without its
    relation to the state's sample number being asked for. *)
Lemma decode_whole_bytes (source : list Frame) (s : Decoder) :
  (forall f, S s -> S (deliver f s)) ->
  match source with
  | [] => True
  | f :: rest => follows A (f_samplenum f) rest
  end ->
  tidy s -> S s -> grouped R (out_ann s) ->
  tidy (final (decode source s)) /\
  S (final (decode source s)) /\
  grouped R (out_ann (final (decode source s))).
Proof.
  intros Hfirst Hf Ht Hs Hg.
  destruct (decode_cases source s) as [[_ Hd] | [_ Hd]].
  - rewrite Hd. cbn [final]. split; [ exact Ht | split; assumption ].
  - destruct source as [ | f rest ]; rewrite Hd.
    + cbn [final]. split; [ exact Ht | ]. split; [ apply S_wait; exact Hs | exact Hg ].
    + apply decode_loop_whole_bytes; try assumption. apply Hfirst. exact Hs.
Qed.
End WholeBytes.

Lemma follows_Forall (Q : Frame -> Prop) (n : Z) (source : list Frame) :
  Forall Q source -> follows (fun _ f => Q f) n source.
Proof.
  intros H. revert n. induction H as [ | f rest Hf Hrest IH ]; intros n.
  - exact I.
  - split; [ exact Hf | apply IH ].
Qed.

(** X4: started tidy, [decode] stops tidy on every source, whatever the pins
    read: the accumulator [octet] is the packing of the stored di-bits (each
    value shifted by two bits per older di-bit), [bitcount] is twice their
    number, and each stored di-bit ends at the sample where the next one
    starts. *)
Theorem decode_keeps_tidy (source : list Frame) (s : Decoder) :
  tidy s -> tidy (final (decode source s)).
Proof.
  intros Ht.
  destruct (decode_cases source s) as [[_ Hd] | [_ Hd]].
  - rewrite Hd. exact Ht.
  - destruct source as [ | f rest ]; rewrite Hd.
    + exact Ht.
    + apply (decode_loop_follows (fun _ _ => True) tidy).
      * intros t g _ Hi. split; [ | apply loop_iteration_samplenum ].
        destruct (loop_iteration_cases g t) as [H | [H | [H _]]]; rewrite H;
          try exact Hi.
        rewrite handle_dibit_eq.
        destruct Hi as (Hb & Hpack & Hch).
        destruct (demultiplex_between (f_valid g) (deliver g t) Hb)
          as (upd & s1 & Hdm & Hb1 & _).
        destruct (demultiplex_frame _ _ _ _ Hdm) as (_ & Ho1 & Hd1 & _ & _).
        assert (Ht1 : tidy s1).
        { split; [ exact Hb1 | ]. rewrite Ho1, Hd1. split; assumption. }
        rewrite Hdm. destruct (discards upd s1).
        -- rewrite reset_decoder_state_eq. apply tidy_reset.
        -- rewrite (assemble_between_eq _ _ _ Hb1). cbn [final].
           destruct (bitcount s1 =? 6) eqn:E.
           ++ apply tidy_reset.
           ++ apply Z.eqb_neq in E.
              split; [ apply clocked_between; assumption | ].
              apply clocked_packed_chained. exact Ht1.
      * intros t Hi. exact Hi.
      * apply (follows_Forall (fun _ => True)). apply Forall_forall. intros; exact I.
      * exact Ht.
Qed.

(** X5: [decode] only ever puts whole bytes.  Started tidy on annotations
    made of whole bytes, what it has put on any source is again a sequence of
    groups, each the four di-bit annotations of four chained records (newest
    first) followed by one octet annotation that runs from the start of the
    oldest to the end of the newest and is labelled with the packing of the
    four values: no di-bit annotation without its octet, no octet without its
    four di-bits. *)
Theorem decode_puts_whole_bytes (source : list Frame) (s : Decoder) :
  tidy s ->
  grouped (fun _ => True) (out_ann s) ->
  grouped (fun _ => True) (out_ann (final (decode source s))) /\
  exists n : nat, length (out_ann (final (decode source s))) = (5 * n)%nat.
Proof.
  intros Ht Hg.
  assert (H : grouped (fun _ => True) (out_ann (final (decode source s)))).
  { apply (decode_whole_bytes (fun _ => True) (fun _ _ => True) (fun _ => True));
      try solve [ intros; exact I | assumption ].
    destruct source as [ | f rest ]; [ exact I | ].
    apply (follows_Forall (fun _ => True)). apply Forall_forall. intros; exact I. }
  split; [ exact H | ].
  destruct H as (quads & -> & Hq). exists (length quads).
  induction Hq as [ | q quads (Hlen & _ & _) Hrest IH ].
  - reflexivity.
  - cbn [map concat]. rewrite length_app, IH.
    destruct (four_records q Hlen) as (d3 & d2 & d1 & d0 & ->).
    cbn [group_events map app length]. lia.
Qed.

(** X6: on level pins the values are 2-bit.  Started tidy and in range on
    whole bytes of 2-bit values, [decode] on a source whose data pins read 0
    or 1 only puts whole bytes of 2-bit values, and stops in range. *)
Theorem decode_puts_two_bit_values (source : list Frame) (s : Decoder) :
  Forall frame_levels source ->
  tidy s -> in_range s ->
  grouped (Forall two_bit) (out_ann s) ->
  in_range (final (decode source s)) /\
  grouped (Forall two_bit) (out_ann (final (decode source s))).
Proof.
  intros Hl Ht Hr Hg.
  apply (decode_whole_bytes (Forall two_bit) (fun _ f => frame_levels f) in_range);
    try assumption.
  - intros t f _ Hi. exact Hi.
  - intros t Hi. exact Hi.
  - intros t f (_ & _ & H1 & H0) (Hb & _) Hi.
    apply handle_dibit_in_range; assumption.
  - intros t f upd s1 (_ & _ & H1 & H0) (Hb & _) Hi _ Hdm _.
    destruct (demultiplex_between (f_valid f) (deliver f t) Hb)
      as (upd' & s1' & Hdm' & Hb1 & _).
    rewrite Hdm in Hdm'. inversion Hdm'; subst upd' s1'.
    destruct (demultiplex_frame _ _ _ _ Hdm) as (Hbc1 & Ho1 & Hd1 & _ & _).
    assert (Hr1 : in_range s1).
    { unfold in_range. rewrite Hbc1, Ho1, Hd1. exact Hi. }
    apply (clocked_in_range (f_dibit1 f) (f_dibit0 f) s1 Hb1 Hr1 H1 H0).
  - intros f Hi. exact Hi.
  - destruct source as [ | f rest ]; [ exact I | ].
    apply follows_Forall. inversion Hl; assumption.
Qed.

(** ** Annotations cover at least one sample when sample numbers increase *)

Lemma timed_deliver (f : Frame) (s : Decoder) :
  samplenum s < f_samplenum f -> timed s -> timed (deliver f s).
Proof.
  unfold timed. cbn [dibits samplenum deliver].
  destruct (dibits s) as [ | newest older ]; [ intros; exact I | ].
  intros Hlt [Hs Ho]. split; [ lia | exact Ho ].
Qed.

(** The records after clocking a di-bit in at a sample later than the newest
    record's start. *)
Lemma clocked_lasting (dibit1 dibit0 : Z) (s : Decoder) :
  match dibits s with
  | [] => True
  | newest :: older =>
      ann_sample_start newest < samplenum s /\ Forall lasting older
  end ->
  timed (clocked dibit1 dibit0 s) /\
  (dibits s <> [] -> Forall lasting (dibits (clocked dibit1 dibit0 s))).
Proof.
  unfold timed, clocked, next_dibits.
  cbn [dibits samplenum set_bitcount set_dibits set_octet].
  destruct (dibits s) as [ | prev older ].
  - intros _. split; [ | intros H; contradiction ].
    cbn [ann_sample_start]. split; [ lia | constructor ].
  - intros [Hs Ho].
    assert (Hp : lasting (with_sample_end prev (samplenum s))) by exact Hs.
    split.
    + cbn [ann_sample_start]. split; [ lia | constructor; assumption ].
    + intros _. constructor; [ | constructor; assumption ].
      unfold lasting. cbn [ann_sample_start ann_sample_end]. lia.
Qed.

Lemma handle_dibit_timed (f : Frame) (s : Decoder) :
  samplenum s < f_samplenum f ->
  tidy s -> timed s ->
  timed (final (handle_dibit (f_clk f) (f_valid f) (f_dibit1 f) (f_dibit0 f)
                  (deliver f s))).
Proof.
  intros Hlt (Hb & _ & _) Ht. rewrite handle_dibit_eq.
  destruct (demultiplex_between (f_valid f) (deliver f s) Hb)
    as (upd & s1 & Hd & Hb1 & _).
  destruct (demultiplex_frame _ _ _ _ Hd) as (_ & _ & Hd1 & _ & Hsn1).
  rewrite Hd. destruct (discards upd s1).
  - rewrite reset_decoder_state_eq. exact I.
  - rewrite (assemble_between_eq _ _ _ Hb1). cbn [final].
    destruct (bitcount s1 =? 6); [ exact I | ].
    apply clocked_lasting. rewrite Hd1, Hsn1.
    pose proof (timed_deliver f s Hlt Ht) as Ht'. unfold timed in Ht, Ht'.
    cbn [dibits samplenum deliver] in *.
    destruct (dibits s) as [ | newest older ]; [ exact I | ].
    destruct Ht as [Hs Ho]. split; [ lia | exact Ho ].
Qed.

Lemma completed_lasting (f : Frame) (s s1 : Decoder) (upd : bool) :
  samplenum s < f_samplenum f ->
  tidy s -> timed s -> bitcount s = 6 ->
  demultiplex (f_valid f) (deliver f s) = Ok upd s1 ->
  Forall lasting (dibits (clocked (f_dibit1 f) (f_dibit0 f) s1)).
Proof.
  intros Hlt (Hb & _ & _) Ht H6 Hd.
  destruct (demultiplex_frame _ _ _ _ Hd) as (_ & _ & Hd1 & _ & Hsn1).
  destruct (between_steps_three s Hb H6) as (r2 & r1 & r0 & Hl).
  apply clocked_lasting.
  - rewrite Hd1, Hsn1. cbn [dibits samplenum deliver].
    unfold timed in Ht. rewrite Hl in *. destruct Ht as [Hs Ho].
    split; [ lia | exact Ho ].
  - rewrite Hd1. cbn [dibits deliver]. rewrite Hl. discriminate.
Qed.

Lemma group_lasting (q : list dibit_ann) :
  length q = 4%nat -> chained q -> Forall lasting q ->
  Forall (fun a => put_ss a < put_es a) (group_events q).
Proof.
  intros Hlen Hch Hl.
  destruct (four_records q Hlen) as (d3 & d2 & d1 & d0 & ->).
  destruct Hch as (H23 & H12 & H01 & _).
  inversion Hl as [ | ? ? L3 Hl2 ]; subst.
  inversion Hl2 as [ | ? ? L2 Hl1 ]; subst.
  inversion Hl1 as [ | ? ? L1 Hl0 ]; subst.
  inversion Hl0 as [ | ? ? L0 _ ]; subst.
  unfold lasting in *.
  cbn [group_events map app List.last].
  repeat constructor; cbn [put_ss put_es]; lia.
Qed.

(** X7: when sample numbers increase strictly along the source, every
    annotation [decode] puts covers at least one sample ([ss < es]): the
    di-bit annotations because each record is closed at a later sample or
    extrapolated beyond the current one, the octet annotations because they
    span four of them. *)
Theorem decode_intervals_last (source : list Frame) (s : Decoder) :
  increasing source ->
  tidy s -> dibits s = [] ->
  grouped (Forall lasting) (out_ann s) ->
  grouped (Forall lasting) (out_ann (final (decode source s))) /\
  Forall (fun a => put_ss a < put_es a) (out_ann (final (decode source s))).
Proof.
  intros Hinc Ht Hd Hg.
  assert (Hs : timed s) by (unfold timed; rewrite Hd; exact I).
  assert (H : grouped (Forall lasting) (out_ann (final (decode source s)))).
  { apply (decode_whole_bytes (Forall lasting)
             (fun n f => n < f_samplenum f) timed); try assumption.
    - intros t f Hlt Hi. apply timed_deliver; assumption.
    - intros t Hi. exact Hi.
    - intros t f Hlt Hti Hi. apply handle_dibit_timed; assumption.
    - intros t f upd s1 Hlt Hti Hi H6 Hdm _.
      apply (completed_lasting f t s1 upd); assumption.
    - intros f _. unfold timed. cbn [dibits deliver]. rewrite Hd. exact I. }
  split; [ exact H | ].
  destruct H as (quads & -> & Hq).
  induction Hq as [ | q quads (Hlen & Hch & Hl) Hrest IH ].
  - constructor.
  - cbn [map concat]. apply Forall_app. split; [ | exact IH ].
    apply group_lasting; assumption.
Qed.

(** Under strictly increasing sample numbers the records [decode] leaves
    stored are chained and all but the newest cover at least one sample, also
    once the next frame is delivered. *)
Lemma decode_chained_lasting (source : list Frame) (s : Decoder) (f : Frame) :
  increasing source ->
  tidy s -> dibits s = [] ->
  grouped (Forall lasting) (out_ann s) ->
  chained (dibits (deliver f (final (decode source s)))) /\
  Forall lasting (List.tl (dibits (deliver f (final (decode source s))))).
Proof.
  intros Hinc Ht Hd Hg.
  assert (Hs : timed s) by (unfold timed; rewrite Hd; exact I).
  assert (H : tidy (final (decode source s)) /\
              timed (final (decode source s)) /\
              grouped (Forall lasting) (out_ann (final (decode source s)))).
  { apply (decode_whole_bytes (Forall lasting)
             (fun n g => n < f_samplenum g) timed); try assumption.
    - intros t g Hlt Hi. apply timed_deliver; assumption.
    - intros t Hi. exact Hi.
    - intros t g Hlt Hti Hi. apply handle_dibit_timed; assumption.
    - intros t g upd s1 Hlt Hti Hi H6 Hdm _.
      apply (completed_lasting g t s1 upd); assumption.
    - intros g _. unfold timed. cbn [dibits deliver]. rewrite Hd. exact I. }
  destruct H as ((_ & _ & Hch) & Htm & _).
  cbn [dibits deliver]. split; [ exact Hch | ].
  unfold timed in Htm.
  destruct (dibits (final (decode source s))) as [ | newest older ];
    [ constructor | exact (proj2 Htm) ].
Qed.

(** ** The octet and its four di-bits *)

(** The packing of four 2-bit values is a byte, it is
    [v0 + 4*v1 + 16*v2 + 64*v3] for the values in the order they were clocked
    in, each value is a base-4 digit of it, and the annotations of the group
    carry the values' decimal digits and the octet's two uppercase
    hexadecimal digits. *)
Lemma packed_quad_round_trip (d3 d2 d1 d0 : dibit_ann) :
  two_bit d3 -> two_bit d2 -> two_bit d1 -> two_bit d0 ->
  let o := pack_dibits [d3; d2; d1; d0] in
  0 <= o < 256 /\
  o = ann_value d0 + 4 * ann_value d1 + 16 * ann_value d2 + 64 * ann_value d3 /\
  o mod 4 = ann_value d0 /\
  (o / 4) mod 4 = ann_value d1 /\
  (o / 16) mod 4 = ann_value d2 /\
  o / 64 = ann_value d3 /\
  group_events [d3; d2; d1; d0] =
    map symbol_event [d3; d2; d1; d0] ++
    [Annotation (ann_sample_start d0) (ann_sample_end d3)
                ANNOTATION_CLASS_INDEX_OCTETS (two_hex_digits o)].
Proof.
  intros H3 H2 H1 H0 o.
  assert (Hsum : o = ann_value d0 + 4 * ann_value d1 + 16 * ann_value d2
                     + 64 * ann_value d3).
  { unfold o, two_bit in *. cbn [pack_dibits length].
    assert (C3 : ann_value d3 = 0 \/ ann_value d3 = 1 \/ ann_value d3 = 2
                 \/ ann_value d3 = 3) by lia.
    assert (C2 : ann_value d2 = 0 \/ ann_value d2 = 1 \/ ann_value d2 = 2
                 \/ ann_value d2 = 3) by lia.
    assert (C1 : ann_value d1 = 0 \/ ann_value d1 = 1 \/ ann_value d1 = 2
                 \/ ann_value d1 = 3) by lia.
    assert (C0 : ann_value d0 = 0 \/ ann_value d0 = 1 \/ ann_value d0 = 2
                 \/ ann_value d0 = 3) by lia.
    destruct C3 as [-> | [-> | [-> | ->]]];
      destruct C2 as [-> | [-> | [-> | ->]]];
      destruct C1 as [-> | [-> | [-> | ->]]];
      destruct C0 as [-> | [-> | [-> | ->]]]; reflexivity. }
  unfold two_bit in *.
  assert (Hbyte : 0 <= o < 256) by lia.
  split; [ exact Hbyte | ]. split; [ exact Hsum | ].
  split; [ rewrite Hsum; symmetry; apply Z.mod_unique with
             (q := ann_value d1 + 4 * ann_value d2 + 16 * ann_value d3); lia | ].
  assert (Hd4 : o / 4 = ann_value d1 + 4 * ann_value d2 + 16 * ann_value d3).
  { rewrite Hsum. symmetry.
    apply Z.div_unique with (r := ann_value d0); lia. }
  assert (Hd16 : o / 16 = ann_value d2 + 4 * ann_value d3).
  { rewrite Hsum. symmetry.
    apply Z.div_unique with (r := ann_value d0 + 4 * ann_value d1); lia. }
  assert (Hd64 : o / 64 = ann_value d3).
  { rewrite Hsum. symmetry.
    apply Z.div_unique
      with (r := ann_value d0 + 4 * ann_value d1 + 16 * ann_value d2); lia. }
  split; [ rewrite Hd4; symmetry; apply Z.mod_unique with
             (q := ann_value d2 + 4 * ann_value d3); lia | ].
  split; [ rewrite Hd16; symmetry;
           apply Z.mod_unique with (q := ann_value d3); lia | ].
  split; [ exact Hd64 | ].
  cbn [group_events map app List.last]. unfold symbol_event.
  fold o. rewrite (fmt_02X_byte o Hbyte).
  rewrite (fmt_d_digit _ H3), (fmt_d_digit _ H2), (fmt_d_digit _ H1),
    (fmt_d_digit _ H0).
  reflexivity.
Qed.

(** The groups [decode] puts on level pins are made of 2-bit values. *)
Lemma decode_two_bit_groups (source : list Frame) (s : Decoder) :
  Forall frame_levels source ->
  tidy s -> in_range s ->
  grouped (Forall two_bit) (out_ann s) ->
  grouped (Forall two_bit) (out_ann (final (decode source s))).
Proof.
  intros Hl Ht Hr Hg.
  apply (decode_whole_bytes (Forall two_bit) (fun _ f => frame_levels f) in_range);
    try assumption.
  - intros t f _ Hi. exact Hi.
  - intros t Hi. exact Hi.
  - intros t f (_ & _ & H1 & H0) (Hb & _) Hi.
    apply handle_dibit_in_range; assumption.
  - intros t f upd s1 (_ & _ & H1 & H0) (Hb & _) Hi _ Hdm _.
    destruct (demultiplex_between (f_valid f) (deliver f t) Hb)
      as (upd' & s1' & Hdm' & Hb1 & _).
    rewrite Hdm in Hdm'. inversion Hdm'; subst upd' s1'.
    destruct (demultiplex_frame _ _ _ _ Hdm) as (Hbc1 & Ho1 & Hd1 & _ & _).
    assert (Hr1 : in_range s1).
    { unfold in_range. rewrite Hbc1, Ho1, Hd1. exact Hi. }
    apply (clocked_in_range (f_dibit1 f) (f_dibit0 f) s1 Hb1 Hr1 H1 H0).
  - intros f Hi. exact Hi.
  - destruct source as [ | f rest ]; [ exact I | ].
    apply follows_Forall. inversion Hl; assumption.
Qed.

(** X8: what [decode] puts reads back.  On a source of level pins, started
    tidy and in range, every byte [decode] puts is a group of four di-bit
    annotations labelled with the decimal digits of the 2-bit values the
    assembler stored, followed by the octet annotation over the four,
    labelled with the two uppercase hexadecimal digits of
    [v0 + 4*v1 + 16*v2 + 64*v3] for the values in the order they were clocked
    in; that octet is a byte and each di-bit is recovered from it as a
    base-4 digit. *)
Theorem octet_round_trip (source : list Frame) (s : Decoder) :
  Forall frame_levels source ->
  tidy s -> in_range s ->
  grouped (Forall two_bit) (out_ann s) ->
  exists groups : list (list annotation),
    out_ann (final (decode source s)) = concat groups /\
    Forall round_trip_group groups.
Proof.
  intros Hl Ht Hr Hg.
  destruct (decode_two_bit_groups source s Hl Ht Hr Hg) as (quads & Hout & Hq).
  exists (map group_events quads). split; [ exact Hout | ].
  clear Hout. induction Hq as [ | q quads (Hlen & Hch & Hv) Hrest IH ].
  - constructor.
  - cbn [map]. constructor; [ | exact IH ].
    destruct (four_records q Hlen) as (d3 & d2 & d1 & d0 & ->).
    inversion Hv as [ | ? ? H3 Hv2 ]; subst.
    inversion Hv2 as [ | ? ? H2 Hv1 ]; subst.
    inversion Hv1 as [ | ? ? H1 Hv0 ]; subst.
    inversion Hv0 as [ | ? ? H0 _ ]; subst.
    destruct (packed_quad_round_trip d3 d2 d1 d0 H3 H2 H1 H0)
      as (Hbyte & Hsum & Hm0 & Hm1 & Hm2 & Hm3 & Hev).
    exists d3, d2, d1, d0. unfold byte_of. rewrite <- Hsum.
    split; [ exact (conj H3 (conj H2 (conj H1 H0))) | ].
    split; [ exact Hch | ]. split; [ exact Hbyte | ].
    split; [ exact (conj Hm0 (conj Hm1 (conj Hm2 Hm3))) | ].
    exact Hev.
Qed.

(** ** [putdata] and an empty list *)

(** X9: [putdata] on an empty [dibits] raises [IndexError] (at
    [self.dibits[-1]]) without having put anything; on a non-empty list it
    returns having put one annotation per record and one for the octet, and
    changes nothing else. *)
Theorem putdata_puts_or_raises (s : Decoder) :
  (dibits s = [] -> putdata s = Raise Py.IndexError s) /\
  (dibits s <> [] ->
   exists later,
     putdata s = Ok tt (set_out_ann (out_ann s ++ later) s) /\
     length later = S (length (dibits s))).
Proof.
  split.
  - intros Hd. unfold putdata. mrun. rewrite Hd. cbn [put_dibits]. mrun.
    rewrite Hd. reflexivity.
  - intros Hne. destruct (dibits s) as [ | newest older ] eqn:Hd;
      [ contradiction | ].
    eexists. split; [ apply (putdata_eq s newest older Hd) | ].
    rewrite length_app, length_map. cbn [length]. lia.
Qed.

(** ** What decoding never writes *)

Section DecodeUntouched.
Context {B : Type} (f : Decoder -> B).
Hypothesis f_crs : forall v s, f (set_crs v s) = f s.
Hypothesis f_dv : forall v s, f (set_dv v s) = f s.
Hypothesis f_bitcount : forall v s, f (set_bitcount v s) = f s.
Hypothesis f_octet : forall v s, f (set_octet v s) = f s.
Hypothesis f_dibits : forall v s, f (set_dibits v s) = f s.
Hypothesis f_out_ann : forall v s, f (set_out_ann v s) = f s.
Hypothesis f_deliver : forall g s, f (deliver g s) = f s.
Hypothesis f_count_wait : forall s, f (count_wait s) = f s.

Lemma loop_iteration_untouched (g : Frame) : preserves f (loop_iteration g).
Proof.
  intros s. unfold loop_iteration. unfold bind, modify.
  rewrite (find_clk_edge_untouched f f_crs f_dv f_bitcount f_octet f_dibits
             f_out_ann).
  apply f_deliver.
Qed.

Lemma decode_loop_untouched (source : list Frame) : preserves f (decode_loop source).
Proof.
  induction source as [ | g rest IH ]; intros s.
  - cbn [decode_loop]. mrun. apply f_count_wait.
  - rewrite decode_loop_cons.
    pose proof (loop_iteration_untouched g s) as Hi.
    destruct (loop_iteration g s) as [ [] s1 | e s1 ]; cbn [final] in *.
    + rewrite IH. exact Hi.
    + exact Hi.
Qed.

Lemma decode_untouched (source : list Frame) : preserves f (decode source).
Proof.
  intros s. destruct (decode_cases source s) as [[_ Hd] | [_ Hd]].
  - rewrite Hd. reflexivity.
  - destruct source as [ | g rest ]; rewrite Hd.
    + apply f_count_wait.
    + rewrite decode_loop_untouched. apply f_deliver.
Qed.
End DecodeUntouched.

(** X10: [decode] never writes the configuration: however it stops, the
    option [valid_bit_type], the connected channels and the stored sample rate
    are those it started with. *)
Theorem decode_keeps_configuration (source : list Frame) (s : Decoder) :
  options (final (decode source s)) = options s /\
  has_channel (final (decode source s)) = has_channel s /\
  samplerate (final (decode source s)) = samplerate s.
Proof.
  split; [ | split ].
  - apply (decode_untouched options); reflexivity.
  - apply (decode_untouched has_channel); reflexivity.
  - apply (decode_untouched samplerate); reflexivity.
Qed.

(** ** TX_EN: the valid line frames the bytes *)

(** The loop is its iterations followed by a [wait] on the exhausted
    source. *)
Lemma decode_loop_iterations (source : list Frame) (s : Decoder) :
  decode_loop source s =
  match loop_iterations source s with
  | Ok _ s1 => Raise Py.EOFError (count_wait s1)
  | Raise e s1 => Raise e s1
  end.
Proof.
  revert s. induction source as [ | f rest IH ]; intros s.
  - reflexivity.
  - rewrite decode_loop_cons. cbn [loop_iterations]. unfold bind at 1.
    destruct (loop_iteration f s) as [ [] s1 | e s1 ]; [ apply IH | reflexivity ].
Qed.

(** With TX_EN, a taken frame is clocked in: a low valid line is the only
    thing that discards. *)
Lemma loop_iteration_tx_en (f : Frame) (s : Decoder) :
  options s = TX_EN -> tx_en_taken f ->
  loop_iteration f s =
  assemble (f_dibit1 f) (f_dibit0 f)
           (set_dv (f_valid f) (set_crs (f_valid f) (deliver f s))).
Proof.
  intros Hopt (Hm & Hclk & Hv).
  unfold loop_iteration, find_clk_edge. mrun.
  rewrite Hm. mrun. cbn [negb]. mrun. rewrite Hopt, Hclk.
  change (Py.truthy 0) with false. cbv iota.
  rewrite handle_dibit_eq, demultiplex_eq.
  cbn [options deliver]. rewrite Hopt.
  unfold discards, Py.truthy. cbn [crs dv set_crs set_dv].
  apply Z.eqb_neq in Hv. rewrite Hv. reflexivity.
Qed.

Lemma byte_events_length (s : Decoder) :
  length (dibits s) = 4%nat -> length (byte_events s) = 5%nat.
Proof.
  intros Hl. unfold byte_events.
  destruct (four_records _ Hl) as (d3 & d2 & d1 & d0 & ->). reflexivity.
Qed.

Lemma loop_iteration_tx_en_step (f : Frame) (s : Decoder) :
  options s = TX_EN -> between_steps s -> tx_en_taken f ->
  exists s1,
    loop_iteration f s = Ok tt s1 /\
    options s1 = TX_EN /\ between_steps s1 /\
    bitcount s1 = (bitcount s + 2) mod 8 /\
    Z.of_nat (length (out_ann s1)) =
      Z.of_nat (length (out_ann s)) + 5 * ((bitcount s + 2) / 8).
Proof.
  intros Hopt Hb Ht.
  rewrite (loop_iteration_tx_en f s Hopt Ht).
  set (s0 := set_dv (f_valid f) (set_crs (f_valid f) (deliver f s))).
  assert (Hb0 : between_steps s0) by exact Hb.
  rewrite (assemble_between_eq _ _ _ Hb0).
  change (bitcount s0) with (bitcount s).
  destruct Hb as [Hlen Hbc].
  destruct (bitcount s =? 6) eqn:E.
  - apply Z.eqb_eq in E. eexists. split; [ reflexivity | ].
    split; [ exact Hopt | ]. split; [ apply discard_between | ].
    split; [ rewrite E; reflexivity | ].
    unfold completed. cbn [out_ann set_dibits set_octet set_bitcount set_out_ann].
    rewrite length_app, byte_events_length.
    + change (out_ann (clocked (f_dibit1 f) (f_dibit0 f) s0)) with (out_ann s).
      rewrite E. change ((6 + 2) / 8) with 1. lia.
    + pose proof (clocked_length (f_dibit1 f) (f_dibit0 f) s0 Hb0) as Hl.
      change (bitcount (clocked (f_dibit1 f) (f_dibit0 f) s0))
        with (bitcount s + 2) in Hl. lia.
  - apply Z.eqb_neq in E. eexists. split; [ reflexivity | ].
    split; [ exact Hopt | ].
    split; [ apply clocked_between; assumption | ].
    change (bitcount (clocked (f_dibit1 f) (f_dibit0 f) s0)) with (bitcount s + 2).
    change (out_ann (clocked (f_dibit1 f) (f_dibit0 f) s0)) with (out_ann s).
    assert (Hc : bitcount s = 0 \/ bitcount s = 2 \/ bitcount s = 4) by lia.
    destruct Hc as [-> | [-> | ->]]; split; try reflexivity;
      Z.div_mod_to_equations; lia.
Qed.

(** X11: with TX_EN, a run of [n] taken frames (clock low, valid line not 0)
    from a state between two steps never discards: every four of them
    complete one byte.  [bitcount] ends at [(bitcount + 2n) mod 8] and
    exactly [5 * ((bitcount + 2n) / 8)] annotations are put, five per
    completed byte. *)
Theorem tx_en_four_dibits_a_byte (source : list Frame) (s : Decoder) :
  options s = TX_EN ->
  between_steps s ->
  Forall tx_en_taken source ->
  let n := Z.of_nat (length source) in
  exists s',
    loop_iterations source s = Ok tt s' /\
    decode_loop source s = Raise Py.EOFError (count_wait s') /\
    between_steps s' /\
    bitcount s' = (bitcount s + 2 * n) mod 8 /\
    Z.of_nat (length (out_ann s')) =
      Z.of_nat (length (out_ann s)) + 5 * ((bitcount s + 2 * n) / 8).
Proof.
  intros Hopt Hb Ht. cbv zeta.
  assert (H : exists s',
             loop_iterations source s = Ok tt s' /\
             between_steps s' /\
             bitcount s' = (bitcount s + 2 * Z.of_nat (length source)) mod 8 /\
             Z.of_nat (length (out_ann s')) =
               Z.of_nat (length (out_ann s))
               + 5 * ((bitcount s + 2 * Z.of_nat (length source)) / 8)).
  { revert s Hopt Hb. induction Ht as [ | f rest Hf Hrest IH ]; intros s Hopt Hb.
    - exists s. split; [ reflexivity | ]. split; [ exact Hb | ].
      cbn [length]. destruct Hb as [_ Hbc].
      destruct Hbc as [H | [H | [H | H]]]; rewrite H;
        split; try reflexivity; Z.div_mod_to_equations; lia.
    - destruct (loop_iteration_tx_en_step f s Hopt Hb Hf)
        as (s1 & Hit & Hopt1 & Hb1 & Hbc1 & Hout1).
      destruct (IH s1 Hopt1 Hb1) as (s' & Hrun & Hb' & Hbc' & Hout').
      exists s'. cbn [loop_iterations]. unfold bind at 1. rewrite Hit.
      split; [ exact Hrun | ]. split; [ exact Hb' | ].
      rewrite Hbc', Hout', Hout1, Hbc1.
      replace (Z.of_nat (length (f :: rest)))
        with (Z.of_nat (length rest) + 1) by (cbn [length]; lia).
      destruct Hb as [_ Hbc].
      generalize (Z.of_nat (length rest)) (Nat2Z.is_nonneg (length rest)).
      intros m Hm.
      destruct Hbc as [H | [H | [H | H]]]; rewrite H;
        change ((0 + 2) mod 8) with 2; change ((2 + 2) mod 8) with 4;
        change ((4 + 2) mod 8) with 6; change ((6 + 2) mod 8) with 0;
        change ((0 + 2) / 8) with 0; change ((2 + 2) / 8) with 0;
        change ((4 + 2) / 8) with 0; change ((6 + 2) / 8) with 1;
        split;
        Z.div_mod_to_equations; lia. }
  destruct H as (s' & Hrun & Hrest).
  exists s'. split; [ exact Hrun | ].
  split; [ rewrite decode_loop_iterations, Hrun; reflexivity | exact Hrest ].
Qed.

(** ** CRS_DV: data-valid is latched for the second half of a byte *)

Lemma handle_dibit_dv_latched (clk valid dibit1 dibit0 : Z) (s : Decoder) :
  between_steps s -> dv_latched s ->
  dv_latched (final (handle_dibit clk valid dibit1 dibit0 s)).
Proof.
  intros Hb Hl Hopt'.
  assert (Hopt : options s = CRS_DV).
  { rewrite <- Hopt'. symmetry.
    apply (handle_dibit_untouched options); reflexivity. }
  clear Hopt'. revert Hl. unfold dv_latched.
  rewrite handle_dibit_eq, demultiplex_eq, Hopt.
  destruct Hb as [Hlen Hbc]. intros Hl.
  assert (Hcase : between_steps s) by (split; assumption).
  destruct Hbc as [H | [H | [H | H]]]; rewrite H in *.
  - change (Z.land 0 2 =? 0) with true. cbv iota.
    destruct (discards false (set_crs valid s)).
    + rewrite reset_decoder_state_eq. cbn [final bitcount set_dibits set_octet
                                             set_bitcount]. lia.
    + rewrite (assemble_between_eq _ _ (set_crs valid s) Hcase).
      cbn [bitcount set_crs]. rewrite H. change (0 =? 6) with false.
      cbn [final]. change (bitcount (clocked dibit1 dibit0 (set_crs valid s)))
        with (bitcount s + 2). lia.
  - change (Z.land 2 2 =? 0) with false. cbv iota.
    destruct (discards true (set_dv valid s)) eqn:Hdis.
    + rewrite reset_decoder_state_eq. cbn [final bitcount set_dibits set_octet
                                             set_bitcount]. lia.
    + rewrite (assemble_between_eq _ _ (set_dv valid s) Hcase).
      cbn [bitcount set_dv]. rewrite H. change (2 =? 6) with false.
      cbn [final]. intros _.
      change (dv (clocked dibit1 dibit0 (set_dv valid s))) with valid.
      unfold discards in Hdis. cbn [dv set_dv andb] in Hdis.
      apply orb_false_elim in Hdis. destruct Hdis as [Hz _].
      apply Z.eqb_neq. exact Hz.
  - change (Z.land 4 2 =? 0) with true. cbv iota.
    destruct (discards false (set_crs valid s)).
    + rewrite reset_decoder_state_eq. cbn [final bitcount set_dibits set_octet
                                             set_bitcount]. lia.
    + rewrite (assemble_between_eq _ _ (set_crs valid s) Hcase).
      cbn [bitcount set_crs]. rewrite H. change (4 =? 6) with false.
      cbn [final]. intros _.
      change (dv (clocked dibit1 dibit0 (set_crs valid s))) with (dv s).
      apply Hl; [ reflexivity | lia ].
  - change (Z.land 6 2 =? 0) with false. cbv iota.
    destruct (discards true (set_dv valid s)).
    + rewrite reset_decoder_state_eq. cbn [final bitcount set_dibits set_octet
                                             set_bitcount]. lia.
    + rewrite (assemble_between_eq _ _ (set_dv valid s) Hcase).
      cbn [bitcount set_dv]. rewrite H. change (6 =? 6) with true.
      cbn [final]. unfold completed.
      cbn [bitcount set_dibits set_octet set_bitcount]. lia.
Qed.

(** X12: with CRS_DV, [decode] keeps [dv] latched: whenever two or three
    di-bits of a byte are stored, [dv] is the non-zero level read at the
    second one.  So the third di-bit of a byte is always clocked in, whatever
    the shared line reads at that sample: carrier-sense may drop in the
    middle of a byte without the byte being discarded. *)
Theorem crs_dv_third_dibit_is_taken :
  (forall (source : list Frame) (s : Decoder),
     between_steps s -> dv_latched s ->
     dv_latched (final (decode source s))) /\
  (forall (clk valid dibit1 dibit0 : Z) (s : Decoder),
     options s = CRS_DV -> between_steps s -> dv_latched s ->
     bitcount s = 4 ->
     handle_dibit clk valid dibit1 dibit0 s
       = Ok tt (clocked dibit1 dibit0 (set_crs valid s))).
Proof.
  split.
  - intros source s Hb Hl.
    assert (H : between_steps (final (decode source s)) /\
                dv_latched (final (decode source s))).
    { destruct (decode_cases source s) as [[_ Hd] | [_ Hd]].
      - rewrite Hd. split; assumption.
      - destruct source as [ | f rest ]; rewrite Hd.
        + split; assumption.
        + apply (decode_loop_follows (fun _ _ => True)
                   (fun t => between_steps t /\ dv_latched t)).
          * intros t g _ [Hbt Hlt]. split; [ | apply loop_iteration_samplenum ].
            destruct (loop_iteration_cases g t) as [H | [H | [H _]]]; rewrite H.
            -- split; assumption.
            -- split.
               ++ destruct (handle_dibit_between (f_clk g) (f_valid g) (f_dibit1 g)
                              (f_dibit0 g) (deliver g t) Hbt) as (t' & -> & Hb').
                  exact Hb'.
               ++ apply handle_dibit_dv_latched; assumption.
            -- split; assumption.
          * intros t Hi. exact Hi.
          * apply (follows_Forall (fun _ => True)). apply Forall_forall.
            intros; exact I.
          * split; assumption. }
    apply H.
  - intros clk valid dibit1 dibit0 s Hopt Hb Hl H4.
    rewrite handle_dibit_eq, demultiplex_eq, Hopt, H4.
    change (Z.land 4 2 =? 0) with true. cbv iota.
    assert (Hdv : dv s <> 0) by (apply Hl; [ exact Hopt | lia ]).
    unfold discards, Py.truthy. cbn [crs dv set_crs andb orb].
    apply Z.eqb_neq in Hdv. rewrite Hdv. cbn [negb andb].
    rewrite andb_false_r.
    rewrite (assemble_between_eq _ _ (set_crs valid s) Hb).
    cbn [bitcount set_crs]. rewrite H4. reflexivity.
Qed.

(** ** The exceptions [decode] can end with *)

Lemma decode_loop_raises_only (source : list Frame) (s : Decoder) :
  between_steps s ->
  raised (decode_loop source s) = Some Py.EOFError \/
  (raised (decode_loop source s) = Some Py.IndexError /\
   Exists (fun f => f_matched f = []) source).
Proof.
  revert s. induction source as [ | f rest IH ]; intros s Hb.
  - left. reflexivity.
  - rewrite decode_loop_cons.
    destruct (loop_iteration_cases f s) as [H | [H | [H Hm]]]; rewrite H.
    + destruct (IH (deliver f s) Hb) as [He | [He Hx]];
        [ left; exact He | right; split; [ exact He | apply Exists_cons_tl; exact Hx ] ].
    + destruct (handle_dibit_between (f_clk f) (f_valid f) (f_dibit1 f) (f_dibit0 f)
                  (deliver f s) Hb) as (s1 & -> & Hb1).
      destruct (IH s1 Hb1) as [He | [He Hx]];
        [ left; exact He | right; split; [ exact He | apply Exists_cons_tl; exact Hx ] ].
    + right. split; [ reflexivity | apply Exists_cons_hd; exact Hm ].
Qed.

(** X13: started between two steps, [decode] never returns and ends in one
    of three ways only: [ChannelError], and then a channel is not connected;
    [IndexError], and then a sample after the first came with an empty
    [matched]; or the end of the samples.  The assembler itself never raises:
    no [ValueError] from the shift, no [IndexError] from [dibits]. *)
Theorem decode_raises_only (source : list Frame) (s : Decoder) :
  between_steps s ->
  match raised (decode source s) with
  | Some Py.ChannelError => ~ all_channels s
  | Some Py.IndexError => Exists (fun f => f_matched f = []) (List.tl source)
  | Some Py.EOFError => True
  | Some Py.ValueError => False
  | None => False
  end.
Proof.
  intros Hb.
  destruct (decode_cases source s) as [[Hc Hd] | [_ Hd]].
  - rewrite Hd. cbn [raised]. intros Hall.
    rewrite check_channels_present in Hc; [ discriminate | ].
    intros channel Hr. apply Hall. lia.
  - destruct source as [ | f rest ]; rewrite Hd; [ exact I | ].
    cbn [List.tl].
    destruct (decode_loop_raises_only rest (deliver f s) Hb) as [-> | [-> Hx]];
      [ exact I | exact Hx ].
Qed.

(** ** The further statements at concrete inputs *)

Ltac tx_start_tidy :=
  split; [ split; [ reflexivity | left; reflexivity ]
         | split; [ reflexivity | exact I ] ].

Lemma decode_runs_to_end_witness :
  exists s',
    decode tx_source tx_start = Raise Py.EOFError s' /\
    waits s' = S (waits tx_start + length tx_source)%nat.
Proof.
  destruct (decode_runs_to_end tx_source tx_start) as (s' & Hd & Hw & _).
  - intros channel _. reflexivity.
  - split; [ reflexivity | left; reflexivity ].
  - repeat constructor; discriminate.
  - exists s'. split; [ exact Hd | exact Hw ].
Defined.

Lemma decode_keeps_tidy_witness :
  tidy tx_start /\ tidy (final (decode tx_source tx_start)).
Proof.
  assert (Ht : tidy tx_start) by tx_start_tidy.
  split; [ exact Ht | exact (decode_keeps_tidy tx_source tx_start Ht) ].
Defined.

Lemma decode_puts_whole_bytes_witness :
  grouped (fun _ => True) (out_ann tx_start) /\
  grouped (fun _ => True) (out_ann (final (decode tx_source tx_start))).
Proof.
  assert (Ht : tidy tx_start) by tx_start_tidy.
  assert (Hg : grouped (fun _ => True) (out_ann tx_start))
    by (exists []; split; [ reflexivity | constructor ]).
  split; [ exact Hg | ].
  exact (proj1 (decode_puts_whole_bytes tx_source tx_start Ht Hg)).
Defined.

Lemma decode_puts_two_bit_values_witness :
  Forall frame_levels tx_source /\
  grouped (Forall two_bit) (out_ann (final (decode tx_source tx_start))).
Proof.
  assert (Hl : Forall frame_levels tx_source).
  { unfold tx_source.
    repeat match goal with
           | |- Forall _ [] => constructor
           | |- Forall _ (_ :: _) =>
               constructor;
               [ repeat split; first [ left; reflexivity | right; reflexivity ] | ]
           end. }
  assert (Ht : tidy tx_start) by tx_start_tidy.
  assert (Hr : in_range tx_start)
    by (split; [ split; [ discriminate | reflexivity ] | constructor ]).
  assert (Hg : grouped (Forall two_bit) (out_ann tx_start))
    by (exists []; split; [ reflexivity | constructor ]).
  split; [ exact Hl | ].
  exact (proj2 (decode_puts_two_bit_values tx_source tx_start Hl Ht Hr Hg)).
Defined.

Lemma decode_intervals_last_witness :
  increasing tx_source /\
  Forall (fun a => put_ss a < put_es a)
         (out_ann (final (decode tx_source tx_start))).
Proof.
  assert (Hi : increasing tx_source) by (repeat split).
  assert (Ht : tidy tx_start) by tx_start_tidy.
  assert (Hg : grouped (Forall lasting) (out_ann tx_start))
    by (exists []; split; [ reflexivity | constructor ]).
  split; [ exact Hi | ].
  exact (proj2 (decode_intervals_last tx_source tx_start Hi Ht eq_refl Hg)).
Defined.

Lemma octet_round_trip_witness :
  Forall frame_levels tx_source /\
  exists groups : list (list annotation),
    out_ann (final (decode tx_source tx_start)) = concat groups /\
    Forall round_trip_group groups.
Proof.
  assert (Hl : Forall frame_levels tx_source).
  { unfold tx_source.
    repeat match goal with
           | |- Forall _ [] => constructor
           | |- Forall _ (_ :: _) =>
               constructor;
               [ repeat split; first [ left; reflexivity | right; reflexivity ] | ]
           end. }
  assert (Ht : tidy tx_start) by tx_start_tidy.
  assert (Hr : in_range tx_start)
    by (split; [ split; [ discriminate | reflexivity ] | constructor ]).
  assert (Hg : grouped (Forall two_bit) (out_ann tx_start))
    by (exists []; split; [ reflexivity | constructor ]).
  split; [ exact Hl | ].
  exact (octet_round_trip tx_source tx_start Hl Ht Hr Hg).
Defined.

Lemma putdata_puts_or_raises_witness :
  dibits tx_start = [] /\ putdata tx_start = Raise Py.IndexError tx_start.
Proof.
  split; [ reflexivity | ].
  exact (proj1 (putdata_puts_or_raises tx_start) eq_refl).
Defined.

Lemma tx_en_four_dibits_a_byte_witness :
  Forall tx_en_taken (List.tl tx_source) /\
  exists s',
    loop_iterations (List.tl tx_source) tx_start = Ok tt s' /\
    bitcount s' = (bitcount tx_start + 2 * 4) mod 8.
Proof.
  assert (Ht : Forall tx_en_taken (List.tl tx_source)).
  { unfold tx_source. cbn [List.tl].
    repeat match goal with
           | |- Forall _ [] => constructor
           | |- Forall _ (_ :: _) =>
               constructor;
               [ split; [ reflexivity | split; [ reflexivity | discriminate ] ] | ]
           end. }
  split; [ exact Ht | ].
  destruct (tx_en_four_dibits_a_byte (List.tl tx_source) tx_start eq_refl)
    as (s' & Hrun & _ & _ & Hbc & _);
    [ split; [ reflexivity | left; reflexivity ] | exact Ht | ].
  exists s'. split; [ exact Hrun | exact Hbc ].
Defined.

Lemma crs_dv_third_dibit_is_taken_witness :
  let s := deliver (crs_dv_frame 30 0 1 0) crs_dv_two_dibits in
  options s = CRS_DV /\ bitcount s = 4 /\ dv s = 1 /\
  handle_dibit 1 0 1 0 s = Ok tt (clocked 1 0 (set_crs 0 s)).
Proof.
  cbv zeta. split; [ reflexivity | ]. split; [ reflexivity | ].
  split; [ reflexivity | ].
  apply (proj2 crs_dv_third_dibit_is_taken).
  - reflexivity.
  - split; [ reflexivity | right; right; left; reflexivity ].
  - intros _ _. discriminate.
  - reflexivity.
Defined.

Lemma decode_raises_only_witness :
  between_steps tx_start /\
  raised (decode tx_source tx_start) <> Some Py.ValueError.
Proof.
  assert (Hb : between_steps tx_start)
    by (split; [ reflexivity | left; reflexivity ]).
  split; [ exact Hb | ].
  pose proof (decode_raises_only tx_source tx_start Hb) as H.
  intros Hv. rewrite Hv in H. exact H.
Defined.
